(** * Notion <-> Google Calendar two-way sync (src/sync.py)

    A shallow embedding of the reconciliation code of [src/sync.py]:
    the date conversions ([notion_to_calendar_event],
    [gcal_event_to_notion_date]), title extraction, the two sync passes
    and [main].

    The Python [datetime] calls the code relies on are modelled at the
    level the code uses them: [datetime.strptime(s, "%Y-%m-%d")],
    [strftime("%Y-%m-%d")], [datetime.fromisoformat], [isoformat()] and
    the addition of [timedelta(days=+-1)] / [timedelta(hours=1)]. *)

From Stdlib Require Import String Ascii ZArith List Lia Bool.
Import ListNotations.
Open Scope Z_scope.

(* ================================================================== *)
(** ** Characters and digit strings *)

Definition chars := list ascii.

Definition digit_val (c : ascii) : option Z :=
  let n := nat_of_ascii c in
  if (48 <=? n)%nat && (n <=? 57)%nat then Some (Z.of_nat n - 48) else None.

Definition digit_chr (k : Z) : ascii := ascii_of_nat (48 + Z.to_nat k).

(** Decimal value of a run of ASCII digits (Python's [int] on a digit
    slice); [None] when a character is not a digit. *)
Definition parse_digits (l : chars) : option Z :=
  fold_left (fun acc c =>
               match acc, digit_val c with
               | Some a, Some d => Some (a * 10 + d)
               | _, _ => None
               end) l (Some 0).

(** [%0nd]: the [n] low decimal digits of [x], zero padded. *)
Fixpoint pad (n : nat) (x : Z) : chars :=
  match n with
  | O => []
  | S n' => pad n' (x / 10) ++ [digit_chr (x mod 10)]
  end.

(** glibc's [strftime("%Y")], used by CPython: the year in decimal
    without zero padding (years 1..9999). *)
Definition fmt_year (y : Z) : chars :=
  if y <? 10 then pad 1 y
  else if y <? 100 then pad 2 y
  else if y <? 1000 then pad 3 y
  else pad 4 y.

Definition dash : ascii := "-"%char.
Definition colon : ascii := ":"%char.

(* ================================================================== *)
(** ** Proleptic Gregorian calendar (Python's [datetime] module) *)

Definition is_leap (y : Z) : bool :=
  (y mod 4 =? 0) && (negb (y mod 100 =? 0) || (y mod 400 =? 0)).

Definition days_in_month (y m : Z) : Z :=
  if m =? 2 then (if is_leap y then 29 else 28)
  else if (m =? 4) || (m =? 6) || (m =? 9) || (m =? 11) then 30
  else 31.

(** [_days_before_month]: the table of [datetime.py] plus the leap day. *)
Definition days_before_month (y m : Z) : Z :=
  nth (Z.to_nat (m - 1)) [0; 31; 59; 90; 120; 151; 181; 212; 243; 273; 304; 334] 0
  + (if (2 <? m) && is_leap y then 1 else 0).

(** [_days_before_year]. *)
Definition days_before_year (y : Z) : Z :=
  let y1 := y - 1 in y1 * 365 + y1 / 4 - y1 / 100 + y1 / 400.

(** [_ymd2ord]: proleptic Gregorian ordinal, 0001-01-01 is day 1. *)
Definition ymd2ord (y m d : Z) : Z :=
  days_before_year y + days_before_month y m + d.

Record date := mkDate { year : Z; month : Z; day : Z }.

Definition date_ord (d : date) : Z := ymd2ord (year d) (month d) (day d).

(** [MINYEAR <= year <= MAXYEAR], month and day in range: what the
    [date] constructor accepts (otherwise [ValueError]). *)
Definition valid_date (d : date) : bool :=
  (1 <=? year d) && (year d <=? 9999) && (1 <=? month d) && (month d <=? 12)
  && (1 <=? day d) && (day d <=? days_in_month (year d) (month d)).

(** [d + timedelta(days=1)]; [None] is the [OverflowError] raised past
    9999-12-31. *)
Definition next_day (d : date) : option date :=
  let '(mkDate y m dd) := d in
  if dd <? days_in_month y m then Some (mkDate y m (dd + 1))
  else if m <? 12 then Some (mkDate y (m + 1) 1)
  else if y <? 9999 then Some (mkDate (y + 1) 1 1)
  else None.

(** [d - timedelta(days=1)]; [None] is the [OverflowError] raised before
    0001-01-01. *)
Definition prev_day (d : date) : option date :=
  let '(mkDate y m dd) := d in
  if 1 <? dd then Some (mkDate y m (dd - 1))
  else if 1 <? m then Some (mkDate y (m - 1) (days_in_month y (m - 1)))
  else if 1 <? y then Some (mkDate (y - 1) 12 31)
  else None.

(** [datetime.strptime(s, "%Y-%m-%d")]: [%Y] is four digits, [%m] a
    zero-padded month, [%d] a two-character day ([01]..[31] or a space
    and a digit); the whole string must be consumed and the date must
    exist. [None] is the [ValueError]. *)
Definition parse_day_field (l : chars) : option Z :=
  match l with
  | [c1; c2] =>
      if Ascii.eqb c1 " "%char then
        match digit_val c2 with Some k => if 1 <=? k then Some k else None | None => None end
      else parse_digits l
  | _ => parse_digits l
  end.

Definition strptime_ymd (s : string) : option date :=
  match list_ascii_of_string s with
  | [y1; y2; y3; y4; s1; m1; m2; s2; d1; d2] =>
      if Ascii.eqb s1 dash && Ascii.eqb s2 dash then
        match parse_digits [y1; y2; y3; y4], parse_digits [m1; m2],
              parse_day_field [d1; d2] with
        | Some y, Some m, Some dd =>
            let d := mkDate y m dd in if valid_date d then Some d else None
        | _, _, _ => None
        end
      else None
  | _ => None
  end.

(** [strftime("%Y-%m-%d")]. *)
Definition strftime_ymd (d : date) : string :=
  string_of_list_ascii
    (fmt_year (year d) ++ [dash] ++ pad 2 (month d) ++ [dash] ++ pad 2 (day d)).

(** *** Timestamps *)

(** An aware or naive [datetime]; [tzoff] is the UTC offset in seconds
    ([None]: naive). *)
Record dtime := mkDT {
  dt_date : date; hour : Z; minute : Z; second : Z; micro : Z;
  tzoff : option Z }.

Definition plus : ascii := "+"%char.

(** [s.replace("Z", "+00:00")]: every occurrence is replaced. *)
Fixpoint replace_Z (l : chars) : chars :=
  match l with
  | [] => []
  | c :: r =>
      if Ascii.eqb c "Z"%char then list_ascii_of_string "+00:00" ++ replace_Z r
      else c :: replace_Z r
  end.

(** [_parse_hh_mm_ss_ff] on the formats [HH], [HH:MM], [HH:MM:SS],
    [HH:MM:SS.fff] and [HH:MM:SS.ffffff] (the forms both CPython
    implementations of [fromisoformat] agree on before 3.11). *)
Definition parse_hms (l : chars) : option (Z * Z * Z * Z) :=
  match l with
  | [h1; h2] =>
      match parse_digits [h1; h2] with Some h => Some (h, 0, 0, 0) | None => None end
  | h1 :: h2 :: c1 :: m1 :: m2 :: rest =>
      if negb (Ascii.eqb c1 colon) then None else
      match parse_digits [h1; h2], parse_digits [m1; m2] with
      | Some h, Some mi =>
          match rest with
          | [] => Some (h, mi, 0, 0)
          | c2 :: s1 :: s2 :: frac =>
              if negb (Ascii.eqb c2 colon) then None else
              match parse_digits [s1; s2] with
              | None => None
              | Some s =>
                  match frac with
                  | [] => Some (h, mi, s, 0)
                  | dot :: f =>
                      if negb (Ascii.eqb dot "."%char) then None
                      else if (length f =? 3)%nat then
                        match parse_digits f with
                        | Some us => Some (h, mi, s, us * 1000) | None => None end
                      else if (length f =? 6)%nat then
                        match parse_digits f with
                        | Some us => Some (h, mi, s, us) | None => None end
                      else None
                  end
              end
          | _ => None
          end
      | _, _ => None
      end
  | _ => None
  end.

(** Split the time part at the first [+] or [-] (the UTC offset). *)
Fixpoint split_tz (l : chars) : chars * option (bool * chars) :=
  match l with
  | [] => ([], None)
  | c :: r =>
      if Ascii.eqb c plus then ([], Some (true, r))
      else if Ascii.eqb c dash then ([], Some (false, r))
      else let '(a, b) := split_tz r in (c :: a, b)
  end.

(** [_parse_isoformat_time]: time, then an optional [+HH:MM] or
    [+HH:MM:SS] offset (which [timezone] bounds by 24 hours). *)
Definition parse_iso_time (l : chars) : option (Z * Z * Z * Z * option Z) :=
  if (length l <? 2)%nat then None else
  let '(ts, tz) := split_tz l in
  match parse_hms ts with
  | None => None
  | Some (h, mi, s, us) =>
      if (24 <=? h) || (60 <=? mi) || (60 <=? s) then None else
      match tz with
      | None => Some (h, mi, s, us, None)
      | Some (pos, tzs) =>
          if negb ((length tzs =? 5)%nat || (length tzs =? 8)%nat) then None else
          match parse_hms tzs with
          | Some (th, tm, tsec, 0) =>
              let off := th * 3600 + tm * 60 + tsec in
              if 86400 <=? off then None
              else Some (h, mi, s, us, Some (if pos then off else - off))
          | _ => None
          end
      end
  end.

(** [datetime.fromisoformat] (CPython 3.7 to 3.10): [YYYY-MM-DD], any
    separator character, then the time. [None] is the [ValueError]. *)
Definition fromisoformat (s : string) : option dtime :=
  let l := list_ascii_of_string s in
  match l with
  | y1 :: y2 :: y3 :: y4 :: s1 :: m1 :: m2 :: s2 :: d1 :: d2 :: rest =>
      if negb (Ascii.eqb s1 dash && Ascii.eqb s2 dash) then None else
      match parse_digits [y1; y2; y3; y4], parse_digits [m1; m2], parse_digits [d1; d2] with
      | Some y, Some m, Some dd =>
          let d := mkDate y m dd in
          if negb (valid_date d) then None else
          match rest with
          | [] => Some (mkDT d 0 0 0 0 None)
          | _ :: tstr =>
              match parse_iso_time tstr with
              | Some (h, mi, sec, us, tz) => Some (mkDT d h mi sec us tz)
              | None => None
              end
          end
      | _, _, _ => None
      end
  | _ => None
  end.

(** [_format_offset] of a UTC offset given in seconds. *)
Definition fmt_offset (off : Z) : chars :=
  let a := Z.abs off in
  [if off <? 0 then dash else plus] ++ pad 2 (a / 3600) ++ [colon] ++ pad 2 (a mod 3600 / 60)
  ++ (if a mod 60 =? 0 then [] else [colon] ++ pad 2 (a mod 60)).

(** [datetime.isoformat()]: [HH:MM:SS], the microseconds when non-zero,
    the offset when aware. *)
Definition hms_part (t : dtime) : chars :=
  pad 2 (hour t) ++ [colon] ++ pad 2 (minute t) ++ [colon] ++ pad 2 (second t).

Definition frac_part (t : dtime) : chars :=
  if micro t =? 0 then [] else ["."%char] ++ pad 6 (micro t).

Definition tz_part (t : dtime) : chars :=
  match tzoff t with None => [] | Some o => fmt_offset o end.

Definition isoformat (t : dtime) : string :=
  let d := dt_date t in
  string_of_list_ascii
    (pad 4 (year d) ++ [dash] ++ pad 2 (month d) ++ [dash] ++ pad 2 (day d)
     ++ ["T"%char] ++ hms_part t ++ frac_part t ++ tz_part t).

(** [t + timedelta(hours=1)]; [None] is the [OverflowError]. *)
Definition add_hour (t : dtime) : option dtime :=
  if hour t <? 23 then
    Some (mkDT (dt_date t) (hour t + 1) (minute t) (second t) (micro t) (tzoff t))
  else
    match next_day (dt_date t) with
    | Some d' => Some (mkDT d' 0 (minute t) (second t) (micro t) (tzoff t))
    | None => None
    end.

(** Microseconds since 0000-12-31T00:00 UTC: a measure of elapsed time
    (a naive timestamp is read as UTC). *)
Definition epoch_us (t : dtime) : Z :=
  let off := match tzoff t with Some o => o | None => 0 end in
  (date_ord (dt_date t) * 86400 + hour t * 3600 + minute t * 60 + second t - off)
    * 1000000 + micro t.

(* ================================================================== *)
(** ** Data model *)

Open Scope string_scope.

(** Python truthiness of an optional string ([None] and [""] are false). *)
Definition truthy (o : option string) : bool :=
  match o with Some s => negb (String.eqb s "") | None => false end.

(** A Notion property value, by its ['type']: a title (the
    ['plain_text'] of each rich-text item), a date ([None] for a null
    ['date'], else ['start'] and the optional ['end']) or any other type. *)
Inductive prop :=
| PTitle (texts : list string)
| PDate (d : option (string * option string))
| POther.

(** A Notion page: its ['id'], ['url'] and ['properties'] (a dict, kept
    in insertion order). Identifiers are opaque non-empty strings in the
    APIs; they are modelled by [nat]. *)
Record page := mkPage { pid : nat; url : string; props : list (string * prop) }.

(** The ['start'] / ['end'] dict of a calendar event: [{'date': s}],
    [{'dateTime': s}] or a dict with neither key. *)
Inductive gtime := GDate (s : string) | GDateTime (s : string) | GNone.

(** The body of a calendar event: ['summary'] and ['description'] (absent
    keys are [None]), ['start'], ['end'] and the private extended
    property ['notion_id'] (the link). *)
Record body := mkBody {
  summary : option string; description : option string;
  gstart : gtime; gend : gtime; link : option nat }.

Record event := mkEvent { eid : nat; ebody : body }.

Fixpoint lookup {A} (k : string) (l : list (string * A)) : option A :=
  match l with
  | [] => None
  | (k', v) :: r => if String.eqb k k' then Some v else lookup k r
  end.

(* ================================================================== *)
(** ** [extract_title_from_notion] *)

(** The first ['plain_text'] of a title property, when it is truthy. *)
Definition title_text (p : prop) : option string :=
  match p with
  | PTitle (t :: _) => if String.eqb t "" then None else Some t
  | _ => None
  end.

Fixpoint first_title (l : list (string * prop)) : option string :=
  match l with
  | [] => None
  | (_, p) :: r => match title_text p with Some t => Some t | None => first_title r end
  end.

Definition extract_title_from_notion (item : page) : string :=
  let ps := props item in
  match match lookup "Project name" ps with Some p => title_text p | None => None end with
  | Some t => t
  | None => match first_title ps with Some t => t | None => "Untitled Event" end
  end.

(* ================================================================== *)
(** ** Exceptions *)

(** A computation that may raise a Python exception. *)
Inductive res (A : Type) := Ok (a : A) | Raise (msg : string).
Arguments Ok {A} a.
Arguments Raise {A} msg.

(* ================================================================== *)
(** ** [notion_to_calendar_event] *)

(** The ['Date'] property when it has type date and a truthy value. *)
Definition date_of (item : page) : option (string * option string) :=
  match lookup "Date" (props item) with Some (PDate d) => d | _ => None end.

(** The end of a timed event when the record has none: [start + 1 hour],
    or [start] itself when parsing or the addition raises (the bare
    [except]). *)
Definition timed_default_end (start : string) : string :=
  match fromisoformat (string_of_list_ascii (replace_Z (list_ascii_of_string start))) with
  | Some t => match add_hour t with Some t' => isoformat t' | None => start end
  | None => start
  end.

Definition notion_to_calendar_event (item : page) : res (option body) :=
  let title := extract_title_from_notion item in
  let mk st en := Some (mkBody (Some title) (Some ("Synced from Notion: " ++ url item))
                               st en None) in
  match date_of item with
  | None => Ok None
  | Some (start_time, end_time) =>
      if (String.length start_time =? 10)%nat then
        (* all-day *)
        if truthy end_time then
          Ok (mk (GDate start_time) (GDate (match end_time with Some e => e | None => "" end)))
        else
          match strptime_ymd start_time with
          | None => Raise "ValueError"
          | Some d =>
              match next_day d with
              | None => Raise "OverflowError"
              | Some d' => Ok (mk (GDate start_time) (GDate (strftime_ymd d')))
              end
          end
      else if String.eqb start_time "" then Ok None
      else
        let e := if truthy end_time then match end_time with Some e => e | None => "" end
                 else timed_default_end start_time in
        Ok (mk (GDateTime start_time) (GDateTime e))
  end.

(* ================================================================== *)
(** ** [gcal_event_to_notion_date] *)

Definition end_date_of (g : gtime) : option string :=
  match g with GDate s => Some s | _ => None end.

Definition end_datetime_of (g : gtime) : option string :=
  match g with GDateTime s => Some s | _ => None end.

Definition gcal_event_to_notion_date (ev : body) : res (option string * option string) :=
  match gstart ev with
  | GDate start_date =>
      let end_date := end_date_of (gend ev) in
      if truthy end_date then
        match strptime_ymd (match end_date with Some e => e | None => "" end) with
        | None => Raise "ValueError"
        | Some d =>
            match prev_day d with
            | None => Raise "OverflowError"
            | Some d' =>
                let e := strftime_ymd d' in
                Ok (Some start_date, if String.eqb e start_date then None else Some e)
            end
        end
      else Ok (Some start_date, end_date)
  | GDateTime start_datetime => Ok (Some start_datetime, end_datetime_of (gend ev))
  | GNone => Ok (None, None)
  end.

(** The ['date'] property built by [update_notion_page] and
    [create_notion_page]: ['end'] only when truthy and distinct from
    ['start']. *)
Definition date_property (start_date : string) (end_date : option string)
  : string * option string :=
  (start_date,
   match end_date with
   | Some e => if String.eqb e "" || String.eqb e start_date then None else Some e
   | None => None
   end).

(* ================================================================== *)
(** ** The two stores and their APIs *)

(** Calendar API calls ([service.events()...execute()]); each may fail
    with an [HttpError]. *)
Inductive ccall :=
| CListLink (nid : nat)   (* list(privateExtendedProperty="notion_id=...") *)
| CListAll                (* list(maxResults=2500) *)
| CInsert
| CUpdate (id : nat)
| CDelete (id : nat).

(** Notion API requests; a failure is a non-200 status. *)
Inductive ncall := NQuery | NCreate | NUpdate (id : nat).

(** The lines the code prints with a cross mark. *)
Inductive logline :=
| FetchError                    (* "Error fetching Notion data" *)
| ItemError (msg : string)      (* "Error syncing item" *)
| SweepError (msg : string)     (* "Error during calendar deletion sync" *)
| ReverseError (msg : string).  (* "Error during calendar to Notion sync" *)

(** Both stores, the calls that fail, and the printed error lines (most
    recent first). *)
Record world := mkWorld {
  pages : list page; next_pid : nat;
  events : list event; next_eid : nat;
  cal_fails : ccall -> bool; notion_fails : ncall -> bool;
  log : list logline }.

Definition set_pages (w : world) (ps : list page) (n : nat) : world :=
  mkWorld ps n (events w) (next_eid w) (cal_fails w) (notion_fails w) (log w).

Definition set_events (w : world) (es : list event) (n : nat) : world :=
  mkWorld (pages w) (next_pid w) es n (cal_fails w) (notion_fails w) (log w).

Definition add_log (w : world) (l : logline) : world :=
  mkWorld (pages w) (next_pid w) (events w) (next_eid w) (cal_fails w) (notion_fails w)
    (l :: log w).

(** State and exceptions: a raised exception keeps the effects done
    before it, as in Python. *)
Definition M (A : Type) := world -> res A * world.

Definition ret {A} (a : A) : M A := fun w => (Ok a, w).

Definition bind {A B} (c : M A) (f : A -> M B) : M B :=
  fun w => match c w with
           | (Ok a, w') => f a w'
           | (Raise m, w') => (Raise m, w')
           end.

Definition lift {A} (r : res A) : M A := fun w => (r, w).

Notation "x <- c ;; k" := (bind c (fun x => k))
  (at level 61, c at next level, right associativity).

(** *** Google Calendar *)

Definition has_link (nid : nat) (e : event) : bool :=
  match link (ebody e) with Some n => Nat.eqb n nid | None => false end.

Definition cal_list_by_link (nid : nat) : M (list event) :=
  fun w => if cal_fails w (CListLink nid) then (Raise "HttpError", w)
           else (Ok (filter (has_link nid) (events w)), w).

(** One page of at most [maxResults = 2500] events. *)
Definition cal_list_all : M (list event) :=
  fun w => if cal_fails w CListAll then (Raise "HttpError", w)
           else (Ok (firstn 2500 (events w)), w).

Definition cal_insert (b : body) : M unit :=
  fun w => if cal_fails w CInsert then (Raise "HttpError", w)
           else (Ok tt, set_events w (events w ++ [mkEvent (next_eid w) b]) (S (next_eid w))).

(** [update] replaces the whole body of an existing event (404 otherwise). *)
Definition cal_update (id : nat) (b : body) : M unit :=
  fun w => if cal_fails w (CUpdate id) then (Raise "HttpError", w)
           else if existsb (fun e => Nat.eqb (eid e) id) (events w) then
             (Ok tt, set_events w (map (fun e => if Nat.eqb (eid e) id then mkEvent id b else e)
                                       (events w)) (next_eid w))
           else (Raise "HttpError 404", w).

Definition cal_delete (id : nat) : M unit :=
  fun w => if cal_fails w (CDelete id) then (Raise "HttpError", w)
           else if existsb (fun e => Nat.eqb (eid e) id) (events w) then
             (Ok tt, set_events w (filter (fun e => negb (Nat.eqb (eid e) id)) (events w))
                       (next_eid w))
           else (Raise "HttpError 404", w).

(** *** Notion *)

(** [get_notion_items]: one query, whose first page holds at most 100
    results; on a non-200 status the error is printed and [[]] returned. *)
Definition get_notion_items : M (list page) :=
  fun w => if notion_fails w NQuery then (Ok [], add_log w FetchError)
           else (Ok (firstn 100 (pages w)), w).

(** Set a property: in place when the page has it, else appended. *)
Fixpoint set_prop (k : string) (v : prop) (l : list (string * prop)) : list (string * prop) :=
  match l with
  | [] => [(k, v)]
  | (k', v') :: r => if String.eqb k k' then (k, v) :: r else (k', v') :: set_prop k v r
  end.

Definition page_url (n : nat) : string :=
  String.append "https://www.notion.so/" (string_of_list_ascii (pad 8 (Z.of_nat n))).

(** The properties written by [create_notion_page] / [update_notion_page]. *)
Definition write_title_date (title start_date : string) (end_date : option string)
  (ps : list (string * prop)) : list (string * prop) :=
  set_prop "Date" (PDate (Some (date_property start_date end_date)))
    (set_prop "Project name" (PTitle [title]) ps).

(** [create_notion_page]: the new page's id, or [None] on a non-200 status. *)
Definition create_notion_page (title start_date : string) (end_date : option string)
  : M (option nat) :=
  fun w => if notion_fails w NCreate then (Ok None, w)
           else let n := next_pid w in
                (Ok (Some n),
                 set_pages w (pages w ++ [mkPage n (page_url n)
                                            (write_title_date title start_date end_date [])])
                   (S n)).

(** [update_notion_page]: [True] on a 200 status (the page exists). *)
Definition update_notion_page (page_id : nat) (title start_date : string)
  (end_date : option string) : M bool :=
  fun w => if notion_fails w (NUpdate page_id) then (Ok false, w)
           else if existsb (fun p => Nat.eqb (pid p) page_id) (pages w) then
             (Ok true,
              set_pages w (map (fun p => if Nat.eqb (pid p) page_id
                                         then mkPage (pid p) (url p)
                                                (write_title_date title start_date end_date
                                                   (props p))
                                         else p) (pages w)) (next_pid w))
           else (Ok false, w).

(* ================================================================== *)
(** ** [sync_notion_to_calendar] *)

Inductive outcome := Created | Updated | Skipped.

(** The body of the [try] for one item. *)
Definition sync_item (item : page) : M outcome :=
  ev <- lift (notion_to_calendar_event item) ;;
  match ev with
  | None => ret Skipped
  | Some b =>
      let b' := mkBody (summary b) (description b) (gstart b) (gend b) (Some (pid item)) in
      existing <- cal_list_by_link (pid item) ;;
      match existing with
      | e :: _ => _ <- cal_update (eid e) b' ;; ret Updated
      | [] => _ <- cal_insert b' ;; ret Created
      end
  end.

Record counts3 := mkC3 { c_created : nat; c_updated : nat; c_skipped : nat }.

Definition bump (o : outcome) (c : counts3) : counts3 :=
  match o with
  | Created => mkC3 (S (c_created c)) (c_updated c) (c_skipped c)
  | Updated => mkC3 (c_created c) (S (c_updated c)) (c_skipped c)
  | Skipped => mkC3 (c_created c) (c_updated c) (S (c_skipped c))
  end.

(** The create/update loop (the batches of 10 run the items in order;
    the pauses between them have no effect on the stores). *)
Fixpoint sync_items (items : list page) (c : counts3) (w : world) : counts3 * world :=
  match items with
  | [] => (c, w)
  | item :: rest =>
      match sync_item item w with
      | (Ok o, w') => sync_items rest (bump o c) w'
      | (Raise m, w') => sync_items rest c (add_log w' (ItemError m))
      end
  end.

Definition link_in (ids : list nat) (n : nat) : bool := existsb (Nat.eqb n) ids.

(** The deletion loop over the synced events. *)
Fixpoint delete_orphans (ids : list nat) (synced : list event) (n : nat) (w : world)
  : nat * world :=
  match synced with
  | [] => (n, w)
  | g :: rest =>
      match link (ebody g) with
      | Some nid =>
          if link_in ids nid then delete_orphans ids rest n w
          else match cal_delete (eid g) w with
               | (Ok _, w') => delete_orphans ids rest (S n) w'
               | (Raise m, w') => (n, add_log w' (SweepError m))
               end
      | None => delete_orphans ids rest n w
      end
  end.

Definition linked (e : event) : bool :=
  match link (ebody e) with Some _ => true | None => false end.

Definition sweep (ids : list nat) (w : world) : nat * world :=
  match cal_list_all w with
  | (Ok gcal_events, w') => delete_orphans ids (filter linked gcal_events) 0%nat w'
  | (Raise m, w') => (0%nat, add_log w' (SweepError m))
  end.

Record counts4 := mkC4 { n_created : nat; n_updated : nat; n_skipped : nat; n_deleted : nat }.

Definition sync_notion_to_calendar (items : list page) (ids : list nat) (w : world)
  : counts4 * world :=
  let '(c, w1) := sync_items items (mkC3 0%nat 0%nat 0%nat) w in
  let '(d, w2) := sweep ids w1 in
  (mkC4 (c_created c) (c_updated c) (c_skipped c) d, w2).

(* ================================================================== *)
(** ** [sync_calendar_to_notion] *)

(** [notion_map = {item['id']: item for item in notion_items}]: a later
    item with the same id wins. *)
Definition notion_map_get (items : list page) (nid : nat) : option page :=
  find (fun p => Nat.eqb (pid p) nid) (rev items).

Inductive routcome := RCreated | RUpdated | RDeleted | RNothing.

Definition summary_or_default (b : body) : string :=
  match summary b with Some t => t | None => "Untitled Event" end.

(** The body of the loop for one calendar event. *)
Definition sync_event (items : list page) (g : event) : M routcome :=
  match link (ebody g) with
  | None =>
      (* a new event created directly in Google Calendar *)
      let title := summary_or_default (ebody g) in
      dates <- lift (gcal_event_to_notion_date (ebody g)) ;;
      let '(start_date, end_date) := dates in
      if truthy start_date then
        new_id <- create_notion_page title (match start_date with Some s => s | None => "" end)
                    end_date ;;
        match new_id with
        | Some k =>
            let b := ebody g in
            _ <- cal_update (eid g)
                   (mkBody (summary b) (description b) (gstart b) (gend b) (Some k)) ;;
            ret RCreated
        | None => ret RNothing
        end
      else ret RNothing
  | Some notion_id =>
      match notion_map_get items notion_id with
      | None =>
          (* the Notion page is gone: delete the calendar event *)
          _ <- cal_delete (eid g) ;; ret RDeleted
      | Some notion_item =>
          let notion_title := extract_title_from_notion notion_item in
          let gcal_title := summary_or_default (ebody g) in
          dates <- lift (gcal_event_to_notion_date (ebody g)) ;;
          let '(gcal_start, gcal_end) := dates in
          let needs_update := negb (String.eqb gcal_title notion_title) in
          if truthy gcal_start && needs_update then
            ok <- update_notion_page notion_id gcal_title
                    (match gcal_start with Some s => s | None => "" end) gcal_end ;;
            ret (if ok then RUpdated else RNothing)
          else ret RNothing
      end
  end.

Record rcounts := mkRC { r_created : nat; r_updated : nat; r_deleted : nat }.

(** The loop over the listed events, inside the pass's single [try]: an
    exception ends the pass with the counts reached so far. The source
    has no [deleted_count += 1] on the deletion branch. *)
Fixpoint sync_events (items : list page) (evs : list event) (c : rcounts) (w : world)
  : rcounts * world :=
  match evs with
  | [] => (c, w)
  | g :: rest =>
      match sync_event items g w with
      | (Ok RCreated, w') =>
          sync_events items rest (mkRC (S (r_created c)) (r_updated c) (r_deleted c)) w'
      | (Ok RUpdated, w') =>
          sync_events items rest (mkRC (r_created c) (S (r_updated c)) (r_deleted c)) w'
      | (Ok RDeleted, w') => sync_events items rest c w'
      | (Ok RNothing, w') => sync_events items rest c w'
      | (Raise m, w') => (c, add_log w' (ReverseError m))
      end
  end.

Definition sync_calendar_to_notion (items : list page) (w : world) : rcounts * world :=
  match cal_list_all w with
  | (Ok gcal_events, w') => sync_events items gcal_events (mkRC 0 0 0) w'
  | (Raise m, w') => (mkRC 0 0 0, add_log w' (ReverseError m))
  end.

(* ================================================================== *)
(** ** [main] *)

(** The counts reported by a completed run. *)
Record run_result := mkResult { notion_to_calendar : counts4; calendar_to_notion : rcounts }.

(** One run, after the configuration and the calendar client were set up. *)
Definition main (w : world) : run_result * world :=
  match get_notion_items w with
  | (Ok notion_items, w1) =>
      let notion_ids := map pid notion_items in
      let '(n2c, w2) := sync_notion_to_calendar notion_items notion_ids w1 in
      let '(c2n, w3) := sync_calendar_to_notion notion_items w2 in
      (mkResult n2c c2n, w3)
  | (Raise _, w1) => (mkResult (mkC4 0 0 0 0) (mkRC 0 0 0), w1)
  end.

(* ================================================================== *)
(** ** Observations on runs *)

(** The ["Error syncing item"] lines of a log. *)
Definition is_item_error (l : logline) : bool :=
  match l with ItemError _ => true | _ => false end.

Definition item_errors (L : list logline) : nat := length (filter is_item_error L).

(** An event whose link names a Record id absent from [ids]. *)
Definition orphan (ids : list nat) (e : event) : bool :=
  match link (ebody e) with Some n => negb (link_in ids n) | None => false end.

(** The body written by the forward pass: [b] with the link attached. *)
Definition with_link (b : body) (n : nat) : body :=
  mkBody (summary b) (description b) (gstart b) (gend b) (Some n).

(** The record translates to an event (it is not skipped). *)
Definition has_event (p : page) : bool :=
  match notion_to_calendar_event p with Ok (Some _) => true | _ => false end.

Definition linked_to (n : nat) (l : list event) : bool := existsb (has_link n) l.

(** At most one event carries a given link. *)
Definition unique_links (l : list event) : Prop :=
  forall x y n, In x l -> In y l -> link (ebody x) = Some n -> link (ebody y) = Some n -> x = y.

(** The reverse pass leaves a Record alone for this linked event: no
    truthy start, equal titles, or an exception. *)
Definition quiet_pair (y : event) (p : page) : bool :=
  match gcal_event_to_notion_date (ebody y) with
  | Ok (s, _) => negb (truthy s && negb (String.eqb (summary_or_default (ebody y))
                                                     (extract_title_from_notion p)))
  | Raise _ => true
  end.

(** The reverse pass creates no Record for this unlinked event. *)
Definition quiet_native (y : event) : bool :=
  match gcal_event_to_notion_date (ebody y) with
  | Ok (s, _) => negb (truthy s)
  | Raise _ => true
  end.

(** The reverse pass does nothing for this event. *)
Definition quiet_event (items : list page) (g : event) : bool :=
  match link (ebody g) with
  | None => quiet_native g
  | Some n => match notion_map_get items n with Some p => quiet_pair g p | None => false end
  end.

(* ================================================================== *)
(** ** Scenarios *)

(** A record of the database with a ['Project name'] title and a ['Date']. *)
Definition record_with_date (s : string) (e : option string) : page :=
  mkPage 1 "https://www.notion.so/r1"
    [("Project name", PTitle ["Standup"]); ("Date", PDate (Some (s, e)))].

Definition r1 : page := record_with_date "2024-03-01" None.

(** The event the code builds for [r1] (an all-day Record without end). *)
Definition r1_event : body :=
  mkBody (Some "Standup") (Some "Synced from Notion: https://www.notion.so/r1")
    (GDate "2024-03-01") (GDate "2024-03-02") None.

(** A calendar event with an all-day range and an optional link. *)
Definition day_event (id : nat) (title : string) (s e : string) (l : option nat) : event :=
  mkEvent id (mkBody (Some title) None (GDate s) (GDate e) l).

Definition no_cal_failure (c : ccall) : bool := false.
Definition no_notion_failure (c : ncall) : bool := false.

(** Stores with the given pages and events, where every call succeeds. *)
Definition world_of (ps : list page) (es : list event) : world :=
  mkWorld ps 2 es 1000 no_cal_failure no_notion_failure [].

(** The Notion query answers with a non-200 status. *)
Definition query_fails (c : ncall) : bool :=
  match c with NQuery => true | _ => false end.

(** Deleting event 100 fails. *)
Definition delete_100_fails (c : ccall) : bool :=
  match c with CDelete 100 => true | _ => false end.

(** [n] unlinked events with ids [0 .. n-1]. *)
Definition busy_days (n : nat) : list event :=
  map (fun i => day_event i "Busy" "2024-03-01" "2024-03-02" None) (seq 0 n).

(** A record without a ['Date']. *)
Definition r0 : page := mkPage 0 "https://www.notion.so/r0" [("Project name", PTitle ["Notes"])].

(** Records [r1] and [r0], an event created in the calendar and an event
    linked to a Record that no longer exists. *)
Definition two_stores : world :=
  world_of [r1; r0] [day_event 100 "Lunch" "2024-03-05" "2024-03-06" None;
                     day_event 101 "Old" "2024-03-07" "2024-03-08" (Some 9%nat)].

(* ================================================================== *)
(** ** Configuration and the entry point *)

(** [os.getenv]: the value of an environment variable, when it is set. *)
Definition env := string -> option string.

(** The module-level settings; [CALENDAR_ID] defaults to ['primary']. *)
Record config := mkConfig {
  NOTION_TOKEN : option string; NOTION_DB_ID : option string;
  GOOGLE_CREDENTIALS_JSON : option string; CALENDAR_ID : option string }.

Definition config_of (e : env) : config :=
  mkConfig (e "NOTION_TOKEN") (e "NOTION_DB_ID") (e "GOOGLE_CREDENTIALS")
    (match e "CALENDAR_ID" with Some v => Some v | None => Some "primary" end).

(** [validate_env]: the list [missing], in the order of the checks; when
    it is not empty the function prints it and calls [sys.exit(1)]. *)
Definition validate_env (c : config) : list string :=
  (if truthy (NOTION_TOKEN c) then [] else ["NOTION_TOKEN"])
  ++ (if truthy (NOTION_DB_ID c) then [] else ["NOTION_DB_ID"])
  ++ (if truthy (GOOGLE_CREDENTIALS_JSON c) then [] else ["GOOGLE_CREDENTIALS"])
  ++ (if truthy (CALENDAR_ID c) then [] else ["CALENDAR_ID"]).



(** *** The batches of the two loops *)

(** [range(i, stop, step)]; [fuel] bounds the number of values. *)
Fixpoint range_step (fuel i stop step : nat) : list nat :=
  match fuel with
  | O => []
  | S f => if (i <? stop)%nat then i :: range_step f (i + step) stop step else []
  end.

(** [range(0, stop, step)]: for [step >= 1] it has at most [stop] values. *)
Definition py_range (stop step : nat) : list nat := range_step stop 0 stop step.

(** The slice [l[i:j]] for [i <= j]. *)
Definition slice {A} (l : list A) (i j : nat) : list A := firstn (j - i) (skipn i l).

(** [batch = l[i:i + n]] for [i] in [range(0, len(l), n)]. *)
Definition batches {A} (n : nat) (l : list A) : list (list A) :=
  map (fun i => slice l i (i + n)) (py_range (length l) n).

(** The create/update loop of [sync_notion_to_calendar] as written: the
    outer loop over the batches, the inner one over a batch. *)
Fixpoint sync_batches (bs : list (list page)) (c : counts3) (w : world) : counts3 * world :=
  match bs with
  | [] => (c, w)
  | b :: r => let '(c', w') := sync_items b c w in sync_batches r c' w'
  end.

(* ================================================================== *)
(** ** Invariants and side conditions used by the proofs *)

(** A timestamp whose fields are in range. *)
Definition valid_dtime (t : dtime) : Prop :=
  (valid_date (dt_date t) = true /\ 0 <= hour t < 24 /\ 0 <= minute t < 60
   /\ 0 <= second t < 60 /\ 0 <= micro t < 1000000
   /\ match tzoff t with Some o => Z.abs o < 86400 | None => True end)%Z.

(** No character of [l] is a sign of a UTC offset. *)
Definition no_sep (l : chars) : Prop :=
  forall c, In c l -> Ascii.eqb c plus = false /\ Ascii.eqb c dash = false.

(** A computation that prints nothing. *)
Definition keeps_log {A} (c : M A) : Prop := forall w, log (snd (c w)) = log w.

(** A computation that writes nothing to Notion. *)
Definition keeps_notion {A} (c : M A) : Prop :=
  forall w, pages (snd (c w)) = pages w /\ next_pid (snd (c w)) = next_pid w.

(** The id and url of a Record. *)
Definition pu (p : page) : nat * string := (pid p, url p).

(** A computation that deletes no Record and changes no id or url: the
    Records it creates come after the existing ones. *)
Definition keeps_records {A} (c : M A) : Prop :=
  forall w, exists L, map pu (pages (snd (c w))) = (map pu (pages w) ++ L)%list.

(** Event ids are distinct and below the next id to be given out. *)
Definition ev_ok (w : world) : Prop :=
  NoDup (map eid (events w)) /\ Forall (fun e => (eid e < next_eid w)%nat) (events w).

(** A state in which a run changes nothing but rewrites the events of
    the dated Records. *)
Definition stable (w : world) : Prop :=
  (forall c, cal_fails w c = false) /\ (forall c, notion_fails w c = false)
  /\ ev_ok w /\ unique_links (events w) /\ NoDup (map pid (pages w))
  /\ (length (pages w) <= 100)%nat /\ (length (events w) + length (pages w) <= 2500)%nat
  /\ (forall y n, In y (events w) -> link (ebody y) = Some n -> In n (map pid (pages w)))
  /\ (forall p, In p (pages w) -> has_event p = true ->
        exists y, In y (events w) /\ link (ebody y) = Some (pid p))
  /\ (forall y p, In y (events w) -> In p (pages w) -> link (ebody y) = Some (pid p) ->
        notion_to_calendar_event p = Ok None -> quiet_pair y p = true)
  /\ (forall y, In y (events w) -> link (ebody y) = None -> quiet_native y = true).

(** An event created in the calendar (it carries no link). *)
Definition native (e : event) : bool := negb (linked e).

(** What holds while the reverse pass still has to process the events
    [R], the last ones of the listed events [L], for the fetched Records
    [items]. *)
Definition rinv (items : list page) (L : list event) (R : list event) (w : world) : Prop :=
  (forall c, cal_fails w c = false) /\ (forall c, notion_fails w c = false)
  /\ ev_ok w /\ map eid (events w) = map eid L /\ unique_links (events w)
  /\ (exists P, L = (P ++ R)%list) /\ (forall y, In y R -> In y (events w))
  /\ NoDup (map pid (pages w)) /\ Forall (fun p => (pid p < next_pid w)%nat) (pages w)
  /\ (forall y n, In y (events w) -> link (ebody y) = Some n -> In n (map pid (pages w)))
  /\ (forall p, In p (pages w) -> has_event p = true ->
        exists y, In y (events w) /\ link (ebody y) = Some (pid p))
  /\ (forall y p, In y (events w) -> ~ In y R -> In p (pages w) -> link (ebody y) = Some (pid p) ->
        notion_to_calendar_event p = Ok None -> quiet_pair y p = true)
  /\ (forall y, In y (events w) -> ~ In y R -> link (ebody y) = None -> quiet_native y = true)
  /\ (forall p, In p (pages w) -> notion_to_calendar_event p = Ok None -> In p items)
  /\ (forall n, In n (map pid items) -> In n (map pid (pages w)))
  /\ (length (pages w) + length (filter native R) <= length items + length (filter native L))%nat.

(* ================================================================== *)
(** * Proofs *)

(** ** Digit strings *)

Open Scope list_scope.
Open Scope Z_scope.

Lemma parse_digits_none (l : chars) :
  fold_left (fun acc c =>
               match acc, digit_val c with
               | Some a, Some d => Some (a * 10 + d)
               | _, _ => None
               end) l None = None.
Proof. induction l as [|c l IH]; simpl; auto. Qed.

Lemma parse_digits_snoc (l : chars) (c : ascii) :
  parse_digits (l ++ [c]) =
  match parse_digits l, digit_val c with
  | Some a, Some d => Some (a * 10 + d)
  | _, _ => None
  end.
Proof. unfold parse_digits. rewrite fold_left_app. reflexivity. Qed.

Ltac digit_cases k :=
  assert (k = 0 \/ k = 1 \/ k = 2 \/ k = 3 \/ k = 4 \/ k = 5 \/ k = 6 \/ k = 7
          \/ k = 8 \/ k = 9) as Hk' by lia;
  repeat (destruct Hk' as [Hk'|Hk']; [subst k; reflexivity|]); subst k; reflexivity.

Lemma digit_val_chr (k : Z) : 0 <= k < 10 -> digit_val (digit_chr k) = Some k.
Proof. intros Hk. digit_cases k. Qed.

(** A digit character is none of the separators of the formats. *)
Lemma digit_chr_sep (k : Z) : 0 <= k < 10 ->
  Ascii.eqb (digit_chr k) plus = false /\ Ascii.eqb (digit_chr k) dash = false
  /\ Ascii.eqb (digit_chr k) colon = false /\ Ascii.eqb (digit_chr k) "."%char = false
  /\ Ascii.eqb (digit_chr k) "Z"%char = false /\ (digit_chr k <> " "%char).
Proof.
  intros Hk.
  assert (k = 0 \/ k = 1 \/ k = 2 \/ k = 3 \/ k = 4 \/ k = 5 \/ k = 6 \/ k = 7
          \/ k = 8 \/ k = 9) as Hk' by lia.
  repeat (destruct Hk' as [Hk'|Hk']; [subst k; repeat split; discriminate|]);
    subst k; repeat split; discriminate.
Qed.

Lemma pad_length (n : nat) (x : Z) : length (pad n x) = n.
Proof.
  revert x; induction n as [|n IH]; intros x; simpl; auto.
  rewrite length_app, IH. simpl. lia.
Qed.

Lemma parse_pad (n : nat) (x : Z) :
  0 <= x -> parse_digits (pad n x) = Some (x mod 10 ^ Z.of_nat n).
Proof.
  revert x; induction n as [|n IH]; intros x Hx.
  - simpl. f_equal. rewrite Z.mod_1_r. reflexivity.
  - simpl pad. rewrite parse_digits_snoc, IH by (apply Z.div_pos; lia).
    rewrite digit_val_chr by (apply Z.mod_pos_bound; lia).
    f_equal. rewrite Nat2Z.inj_succ, Z.pow_succ_r by lia.
    rewrite Z.rem_mul_r by (try apply Z.pow_pos_nonneg; lia). lia.
Qed.

Lemma parse_pad_small (n : nat) (x : Z) :
  0 <= x < 10 ^ Z.of_nat n -> parse_digits (pad n x) = Some x.
Proof. intros H. rewrite parse_pad by lia. f_equal. apply Z.mod_small; lia. Qed.

(** Every character of [pad n x] is a digit. *)
Lemma pad_digits (n : nat) (x : Z) (c : ascii) :
  In c (pad n x) -> exists k, 0 <= k < 10 /\ c = digit_chr k.
Proof.
  revert x; induction n as [|n IH]; intros x Hin; simpl in Hin; [contradiction|].
  apply in_app_or in Hin as [Hin|[<-|[]]]; [eauto|].
  exists (x mod 10). split; [apply Z.mod_pos_bound; lia|reflexivity].
Qed.

Lemma pad_S (n : nat) (x : Z) :
  pad (S n) x = pad n (x / 10) ++ [digit_chr (x mod 10)].
Proof. reflexivity. Qed.

Lemma list4 {A} (l : list A) : length l = 4%nat -> exists a b c d, l = [a; b; c; d].
Proof.
  destruct l as [|a [|b [|c [|d [|]]]]]; simpl; intros H; try discriminate; eauto 6.
Qed.

Lemma list2 {A} (l : list A) : length l = 2%nat -> exists a b, l = [a; b].
Proof. destruct l as [|a [|b [|]]]; simpl; intros H; try discriminate; eauto. Qed.

(** ** The calendar *)

Lemma div_step (n k : Z) : 0 <= n -> 0 < k ->
  (n + 1) / k = n / k + (if (n + 1) mod k =? 0 then 1 else 0).
Proof.
  intros Hn Hk.
  pose proof (Z.div_mod n k ltac:(lia)) as Hd.
  pose proof (Z.mod_pos_bound n k Hk) as Hr.
  destruct (Z.eq_dec (n mod k) (k - 1)) as [E|E].
  - assert (Hq : (n + 1) / k = n / k + 1).
    { symmetry. apply (Z.div_unique_pos _ _ _ 0); lia. }
    assert (Hm : (n + 1) mod k = 0).
    { symmetry. apply (Z.mod_unique_pos _ _ (n / k + 1)); lia. }
    rewrite Hq, Hm. reflexivity.
  - assert (Hq : (n + 1) / k = n / k).
    { symmetry. apply (Z.div_unique_pos _ _ _ (n mod k + 1)); lia. }
    assert (Hm : (n + 1) mod k = n mod k + 1).
    { symmetry. apply (Z.mod_unique_pos _ _ (n / k)); lia. }
    rewrite Hq, Hm. destruct (Z.eqb_spec (n mod k + 1) 0); lia.
Qed.

Lemma mod_divides (y a b : Z) : 0 < a -> 0 < b -> (a | b) -> y mod b = 0 -> y mod a = 0.
Proof.
  intros Ha Hb Hab Hy. apply Z.mod_divide; [lia|].
  apply Z.mod_divide in Hy; [|lia]. eapply Z.divide_trans; eauto.
Qed.

Lemma days_before_year_succ (y : Z) : 1 <= y ->
  days_before_year (y + 1) = days_before_year y + (if is_leap y then 366 else 365).
Proof.
  intros Hy. unfold days_before_year, is_leap.
  replace (y + 1 - 1) with ((y - 1) + 1) by lia.
  rewrite (div_step (y - 1) 4), (div_step (y - 1) 100), (div_step (y - 1) 400) by lia.
  replace (y - 1 + 1) with y by lia.
  assert (H100 : y mod 100 = 0 -> y mod 4 = 0)
    by (apply mod_divides; [lia|lia|exists 25; lia]).
  assert (H400 : y mod 400 = 0 -> y mod 100 = 0)
    by (apply mod_divides; [lia|lia|exists 4; lia]).
  destruct (Z.eqb_spec (y mod 4) 0), (Z.eqb_spec (y mod 100) 0),
    (Z.eqb_spec (y mod 400) 0); simpl; lia.
Qed.

Lemma days_in_month_bounds (y m : Z) : 28 <= days_in_month y m <= 31.
Proof.
  unfold days_in_month.
  destruct (m =? 2), (is_leap y), ((m =? 4) || (m =? 6) || (m =? 9) || (m =? 11)); lia.
Qed.

Lemma days_before_month_succ (y m : Z) : 1 <= m <= 11 ->
  days_before_month y (m + 1) = days_before_month y m + days_in_month y m.
Proof.
  intros Hm.
  assert (m = 1 \/ m = 2 \/ m = 3 \/ m = 4 \/ m = 5 \/ m = 6 \/ m = 7 \/ m = 8
          \/ m = 9 \/ m = 10 \/ m = 11) as Hc by lia.
  unfold days_before_month, days_in_month.
  repeat (destruct Hc as [Hc|Hc]; [subst m; simpl; destruct (is_leap y); reflexivity|]);
    subst m; simpl; destruct (is_leap y); reflexivity.
Qed.

Lemma valid_date_spec (d : date) :
  valid_date d = true <->
  1 <= year d <= 9999 /\ 1 <= month d <= 12 /\ 1 <= day d <= days_in_month (year d) (month d).
Proof.
  unfold valid_date. rewrite !andb_true_iff, !Z.leb_le. tauto.
Qed.

(** [timedelta(days=1)] moves to the next day of the calendar: the
    ordinal grows by one and the result is again a valid date. *)
Lemma next_day_ord (d d' : date) :
  valid_date d = true -> next_day d = Some d' ->
  valid_date d' = true /\ date_ord d' = date_ord d + 1.
Proof.
  destruct d as [y m dd]. rewrite valid_date_spec. simpl. intros (Hy & Hm & Hd) Hn.
  unfold next_day in Hn. rewrite !valid_date_spec.
  pose proof (days_in_month_bounds y (m + 1)).
  destruct (Z.ltb_spec dd (days_in_month y m)).
  - injection Hn as <-. unfold date_ord, ymd2ord; simpl. lia.
  - destruct (Z.ltb_spec m 12).
    + injection Hn as <-. unfold date_ord, ymd2ord; simpl.
      rewrite days_before_month_succ by lia. lia.
    + destruct (Z.ltb_spec y 9999); [|discriminate]. injection Hn as <-.
      assert (m = 12) by lia. subst m.
      unfold date_ord, ymd2ord; simpl.
      rewrite days_before_year_succ by lia.
      unfold days_in_month in *. unfold days_before_month. simpl in *.
      destruct (is_leap y); simpl in *; repeat split; lia.
Qed.

Lemma pad2_shape (x : Z) :
  exists a b, pad 2 x = [a; b] /\ Ascii.eqb a " "%char = false.
Proof.
  destruct (list2 (pad 2 x) (pad_length 2 x)) as (a & b & H).
  exists a, b. split; [exact H|].
  destruct (pad_digits 2 x a) as (k & Hk & ->); [rewrite H; left; reflexivity|].
  destruct (digit_chr_sep k Hk) as (_ & _ & _ & _ & _ & Hs).
  destruct (Ascii.eqb_spec (digit_chr k) " "%char); [contradiction|reflexivity].
Qed.

(** [strptime(strftime(d))] gives [d] back for the four-digit years
    ([%Y] is not zero padded below 1000). *)
Lemma strptime_strftime (d : date) :
  valid_date d = true -> 1000 <= year d -> strptime_ymd (strftime_ymd d) = Some d.
Proof.
  intros Hv H1000. pose proof Hv as Hv'. rewrite valid_date_spec in Hv'.
  destruct Hv' as (Hy & Hm & Hd). pose proof (days_in_month_bounds (year d) (month d)).
  unfold strftime_ymd, strptime_ymd. rewrite list_ascii_of_string_of_list_ascii.
  unfold fmt_year. destruct (Z.ltb_spec (year d) 10); [lia|].
  destruct (Z.ltb_spec (year d) 100); [lia|]. destruct (Z.ltb_spec (year d) 1000); [lia|].
  destruct (list4 (pad 4 (year d)) (pad_length 4 (year d))) as (y1 & y2 & y3 & y4 & Hy4).
  destruct (pad2_shape (month d)) as (m1 & m2 & Hm2 & _).
  destruct (pad2_shape (day d)) as (d1 & d2 & Hd2 & Hsp).
  rewrite Hy4, Hm2, Hd2. simpl. rewrite <- Hy4, <- Hm2.
  unfold parse_day_field. rewrite Hsp, <- Hd2.
  rewrite !parse_pad_small by (simpl; lia).
  destruct d; simpl in *; rewrite Hv; reflexivity.
Qed.

(** ** Timestamps *)

Lemma split_tz_app (l r : chars) :
  no_sep l -> split_tz (l ++ r) = (l ++ fst (split_tz r), snd (split_tz r)).
Proof.
  induction l as [|c l IH]; intros Hl; simpl.
  - destruct (split_tz r); reflexivity.
  - destruct (Hl c (or_introl eq_refl)) as [-> ->].
    rewrite IH by (intros c' Hc'; apply Hl; right; exact Hc'). reflexivity.
Qed.

Lemma no_sep_pad (n : nat) (x : Z) : no_sep (pad n x).
Proof.
  intros c Hc. destruct (pad_digits n x c Hc) as (k & Hk & ->).
  destruct (digit_chr_sep k Hk) as (H1 & H2 & _). auto.
Qed.

Lemma no_sep_app (l r : chars) : no_sep l -> no_sep r -> no_sep (l ++ r).
Proof. intros Hl Hr c Hc. apply in_app_or in Hc as [Hc|Hc]; auto. Qed.

Lemma no_sep_char (c : ascii) :
  Ascii.eqb c plus = false -> Ascii.eqb c dash = false -> no_sep [c].
Proof. intros H1 H2 c' [<-|[]]; auto. Qed.

Lemma parse_hms_time (h mi s : Z) (f : chars) :
  0 <= h < 100 -> 0 <= mi < 100 -> 0 <= s < 100 ->
  parse_hms (pad 2 h ++ [colon] ++ pad 2 mi ++ [colon] ++ pad 2 s ++ f) =
  match f with
  | [] => Some (h, mi, s, 0)
  | dot :: f =>
      if negb (Ascii.eqb dot "."%char) then None
      else if (length f =? 3)%nat then
        match parse_digits f with Some us => Some (h, mi, s, us * 1000) | None => None end
      else if (length f =? 6)%nat then
        match parse_digits f with Some us => Some (h, mi, s, us) | None => None end
      else None
  end.
Proof.
  intros Hh Hm Hs.
  destruct (pad2_shape h) as (h1 & h2 & Eh & _).
  destruct (pad2_shape mi) as (m1 & m2 & Em & _).
  destruct (pad2_shape s) as (s1 & s2 & Es & _).
  pose proof (parse_pad_small 2 h) as Ph. pose proof (parse_pad_small 2 mi) as Pm.
  pose proof (parse_pad_small 2 s) as Ps.
  rewrite Eh in Ph; rewrite Em in Pm; rewrite Es in Ps.
  rewrite Eh, Em, Es. simpl.
  rewrite Ph, Pm, Ps by (simpl; lia). reflexivity.
Qed.

Lemma parse_hms_hm (h mi : Z) :
  0 <= h < 100 -> 0 <= mi < 100 ->
  parse_hms (pad 2 h ++ [colon] ++ pad 2 mi) = Some (h, mi, 0, 0).
Proof.
  intros Hh Hm.
  destruct (pad2_shape h) as (h1 & h2 & Eh & _).
  destruct (pad2_shape mi) as (m1 & m2 & Em & _).
  pose proof (parse_pad_small 2 h) as Ph. pose proof (parse_pad_small 2 mi) as Pm.
  rewrite Eh in Ph; rewrite Em in Pm.
  rewrite Eh, Em. simpl. rewrite Ph, Pm by (simpl; lia). reflexivity.
Qed.

(** The offset written by [isoformat] is read back by [fromisoformat]. *)
Lemma parse_offset (o : Z) : Z.abs o < 86400 ->
  exists (pos : bool) (tzs : chars), fmt_offset o = (if pos then plus else dash) :: tzs
  /\ ((length tzs =? 5)%nat || (length tzs =? 8)%nat) = true
  /\ exists th tm tsec : Z, parse_hms tzs = Some (th, tm, tsec, 0)
     /\ th * 3600 + tm * 60 + tsec = Z.abs o
     /\ (if pos then Z.abs o else - Z.abs o) = o.
Proof.
  intros Ho. set (a := Z.abs o).
  assert (Ha : 0 <= a) by (unfold a; lia).
  pose proof (Z.div_mod a 3600 ltac:(lia)) as D1.
  pose proof (Z.div_mod (a mod 3600) 60 ltac:(lia)) as D2.
  pose proof (Z.mod_pos_bound a 3600 ltac:(lia)).
  pose proof (Z.mod_pos_bound (a mod 3600) 60 ltac:(lia)).
  pose proof (Z.mod_pos_bound a 60 ltac:(lia)).
  assert (Hmod : (a mod 3600) mod 60 = a mod 60).
  { rewrite <- (Z.mod_mod_divide a 3600 60) by (exists 60; lia). reflexivity. }
  assert (0 <= a / 3600 < 24) by (split; [apply Z.div_pos; lia|apply Z.div_lt_upper_bound; lia]).
  assert (0 <= a mod 3600 / 60 < 60) by (split; [apply Z.div_pos; lia|apply Z.div_lt_upper_bound; lia]).
  exists (negb (o <? 0)).
  unfold fmt_offset. fold a.
  destruct (Z.eqb_spec (a mod 60) 0) as [E|E].
  - exists (pad 2 (a / 3600) ++ [colon] ++ pad 2 (a mod 3600 / 60)).
    split; [destruct (Z.ltb_spec o 0); rewrite ?app_nil_r; reflexivity|].
    split; [rewrite !length_app, !pad_length; reflexivity|].
    exists (a / 3600), (a mod 3600 / 60), 0. split; [apply parse_hms_hm; lia|].
    split; [lia|]. unfold a. destruct (Z.ltb_spec o 0); simpl; lia.
  - exists (pad 2 (a / 3600) ++ [colon] ++ pad 2 (a mod 3600 / 60) ++ [colon] ++ pad 2 (a mod 60)).
    split; [destruct (Z.ltb_spec o 0); simpl; rewrite ?app_assoc; reflexivity|].
    split; [rewrite !length_app, !pad_length; reflexivity|].
    exists (a / 3600), (a mod 3600 / 60), (a mod 60).
    split; [rewrite <- (app_nil_r (pad 2 (a mod 60))), parse_hms_time by lia; reflexivity|].
    split; [lia|]. unfold a. destruct (Z.ltb_spec o 0); simpl; lia.
Qed.

Lemma no_sep_time (t : dtime) : no_sep (hms_part t ++ frac_part t).
Proof.
  assert (Hc : no_sep [colon]) by (apply no_sep_char; reflexivity).
  unfold hms_part, frac_part. rewrite <- !app_assoc.
  apply no_sep_app; [apply no_sep_pad|]. apply no_sep_app; [exact Hc|].
  apply no_sep_app; [apply no_sep_pad|]. apply no_sep_app; [exact Hc|].
  apply no_sep_app; [apply no_sep_pad|].
  destruct (micro t =? 0); [intros c []|].
  apply no_sep_app; [apply no_sep_char; reflexivity|apply no_sep_pad].
Qed.

Lemma parse_iso_time_ok (t : dtime) : valid_dtime t ->
  parse_iso_time (hms_part t ++ frac_part t ++ tz_part t)
  = Some (hour t, minute t, second t, micro t, tzoff t).
Proof.
  intros (Hd & Hh & Hm & Hs & Hus & Htz).
  pose proof (no_sep_time t) as Hns.
  unfold parse_iso_time. rewrite app_assoc.
  rewrite (split_tz_app _ (tz_part t) Hns).
  rewrite (proj2 (Nat.ltb_ge _ 2))
    by (unfold hms_part; rewrite !length_app, pad_length; simpl; lia).
  assert (Hfr : parse_hms (hms_part t ++ frac_part t)
                = Some (hour t, minute t, second t, micro t)).
  { unfold hms_part. rewrite <- !app_assoc. rewrite parse_hms_time by lia.
    unfold frac_part.
    destruct (Z.eqb_spec (micro t) 0) as [E|E]; [rewrite E; reflexivity|].
    change (["."%char] ++ pad 6 (micro t)) with ("."%char :: pad 6 (micro t)).
    cbv iota beta. rewrite pad_length. rewrite parse_pad_small by (simpl; lia).
    reflexivity. }
  assert (Hr : (24 <=? hour t) || (60 <=? minute t) || (60 <=? second t) = false).
  { rewrite !orb_false_iff, !Z.leb_gt. lia. }
  unfold tz_part in *. destruct (tzoff t) as [o|] eqn:Eo.
  - destruct (parse_offset o Htz) as (pos & tzs & Ef & Hl & th & tm & tsec & Hp & Ho & Hs').
    rewrite Ef.
    assert (Hsp : split_tz ((if pos then plus else dash) :: tzs) = ([], Some (pos, tzs)))
      by (destruct pos; reflexivity).
    rewrite Hsp. simpl fst; simpl snd. rewrite app_nil_r, Hfr, Hr.
    rewrite Hl. simpl negb. rewrite Hp, Ho.
    replace (86400 <=? Z.abs o) with false by (symmetry; apply Z.leb_gt; lia).
    rewrite Hs'. reflexivity.
  - simpl fst; simpl snd. rewrite !app_nil_r, Hfr, Hr. reflexivity.
Qed.

(** [fromisoformat(t.isoformat())] gives [t] back. *)
Lemma fromisoformat_isoformat (t : dtime) : valid_dtime t ->
  fromisoformat (isoformat t) = Some t.
Proof.
  intros Hv. pose proof Hv as (Hd & _).
  pose proof Hd as Hd'. rewrite valid_date_spec in Hd'. destruct Hd' as (Hy & Hm & Hdd).
  pose proof (days_in_month_bounds (year (dt_date t)) (month (dt_date t))).
  unfold isoformat, fromisoformat. rewrite list_ascii_of_string_of_list_ascii.
  destruct (list4 (pad 4 (year (dt_date t))) (pad_length 4 _)) as (y1 & y2 & y3 & y4 & Hy4).
  destruct (pad2_shape (month (dt_date t))) as (m1 & m2 & Hm2 & _).
  destruct (pad2_shape (day (dt_date t))) as (d1 & d2 & Hd2 & _).
  rewrite Hy4, Hm2, Hd2. cbn [app]. cbn iota. rewrite <- Hy4, <- Hm2, <- Hd2.
  simpl (Ascii.eqb dash dash). cbn [andb negb]. cbv iota.
  rewrite !parse_pad_small by (simpl; lia).
  replace (mkDate (year (dt_date t)) (month (dt_date t)) (day (dt_date t))) with (dt_date t)
    by (destruct (dt_date t); reflexivity).
  rewrite Hd. cbn [negb]. cbv iota.
  rewrite parse_iso_time_ok by exact Hv. destruct t; reflexivity.
Qed.

(** [timedelta(hours=1)] is one hour of elapsed time, and the result is
    again a valid timestamp. *)
Lemma add_hour_epoch (t t' : dtime) : valid_dtime t -> add_hour t = Some t' ->
  valid_dtime t' /\ epoch_us t' = epoch_us t + 3600 * 1000000.
Proof.
  intros (Hd & Hh & Hm & Hs & Hus & Htz) Ha. unfold add_hour in Ha.
  destruct (Z.ltb_spec (hour t) 23).
  - injection Ha as <-. unfold valid_dtime, epoch_us; simpl.
    repeat split; try lia; auto.
  - destruct (next_day (dt_date t)) as [d'|] eqn:En; [|discriminate].
    injection Ha as <-. destruct (next_day_ord _ _ Hd En) as [Hv' Ho].
    unfold valid_dtime, epoch_us; simpl. rewrite Ho. assert (hour t = 23) by lia.
    repeat split; try lia; auto.
Qed.

Lemma parse_digits_bound (l : chars) (x : Z) :
  parse_digits l = Some x -> 0 <= x < 10 ^ Z.of_nat (length l).
Proof.
  revert x. induction l as [|c l IH] using rev_ind; intros x H.
  - injection H as <-. simpl. lia.
  - rewrite parse_digits_snoc in H.
    destruct (parse_digits l) as [a|]; [|discriminate].
    destruct (digit_val c) as [k|] eqn:Ek; [|discriminate]. injection H as <-.
    specialize (IH a eq_refl).
    assert (0 <= k < 10).
    { unfold digit_val in Ek.
      destruct ((48 <=? nat_of_ascii c)%nat && (nat_of_ascii c <=? 57)%nat) eqn:E;
        [|discriminate].
      apply andb_true_iff in E as [E1 E2]. apply Nat.leb_le in E1, E2.
      injection Ek as <-. lia. }
    rewrite length_app, Nat2Z.inj_add, Z.pow_add_r by lia. simpl (Z.of_nat (length [c])).
    lia.
Qed.

Lemma parse_hms_bounds (l : chars) (h mi s us : Z) :
  parse_hms l = Some (h, mi, s, us) ->
  0 <= h /\ 0 <= mi /\ 0 <= s /\ 0 <= us < 1000000.
Proof.
  unfold parse_hms. intros H.
  destruct l as [|h1 [|h2 [|c1 [|m1 [|m2 rest]]]]]; try discriminate.
  - destruct (parse_digits [h1; h2]) eqn:E; [|discriminate]. injection H as <- <- <- <-.
    apply parse_digits_bound in E. lia.
  - destruct (Ascii.eqb c1 colon); [|discriminate]. simpl in H.
    destruct (parse_digits [h1; h2]) as [a|] eqn:E1; [|discriminate].
    destruct (parse_digits [m1; m2]) as [b|] eqn:E2; [|discriminate].
    apply parse_digits_bound in E1, E2.
    destruct rest as [|c2 [|s1 [|s2 frac]]]; try discriminate.
    + injection H as <- <- <- <-. lia.
    + destruct (Ascii.eqb c2 colon); [|discriminate]. simpl in H.
      destruct (parse_digits [s1; s2]) as [c|] eqn:E3; [|discriminate].
      apply parse_digits_bound in E3.
      destruct frac as [|dot f]; [injection H as <- <- <- <-; lia|].
      destruct (Ascii.eqb dot "."%char); [|discriminate]. simpl in H.
      destruct (Nat.eqb_spec (length f) 3) as [L|L].
      * destruct (parse_digits f) as [u|] eqn:E4; [|discriminate].
        apply parse_digits_bound in E4. rewrite L in E4. simpl in E4.
        injection H as <- <- <- <-. lia.
      * destruct (Nat.eqb_spec (length f) 6) as [L'|L']; [|discriminate].
        destruct (parse_digits f) as [u|] eqn:E4; [|discriminate].
        apply parse_digits_bound in E4. rewrite L' in E4. simpl in E4.
        injection H as <- <- <- <-. lia.
Qed.

(** What [fromisoformat] returns is a valid [datetime]. *)
Lemma fromisoformat_valid (s : string) (t : dtime) :
  fromisoformat s = Some t -> valid_dtime t.
Proof.
  unfold fromisoformat.
  destruct (list_ascii_of_string s)
    as [|y1 [|y2 [|y3 [|y4 [|s1 [|m1 [|m2 [|s2 [|d1 [|d2 rest]]]]]]]]]];
    try discriminate.
  destruct (Ascii.eqb s1 dash && Ascii.eqb s2 dash); [|discriminate]. simpl.
  destruct (parse_digits [y1; y2; y3; y4]), (parse_digits [m1; m2]),
    (parse_digits [d1; d2]); try discriminate.
  match goal with |- context [valid_date ?d] => destruct (valid_date d) eqn:Hv end;
    [|discriminate]. simpl.
  destruct rest as [|sep tstr].
  - intros H; injection H as <-. unfold valid_dtime; simpl. repeat split; auto; lia.
  - unfold parse_iso_time.
    destruct (length tstr <? 2)%nat; [discriminate|].
    destruct (split_tz tstr) as [ts tz].
    destruct (parse_hms ts) as [[[[h mi] sec] us]|] eqn:Eh; [|discriminate].
    apply parse_hms_bounds in Eh.
    destruct ((24 <=? h) || (60 <=? mi) || (60 <=? sec)) eqn:Er; [discriminate|].
    rewrite !orb_false_iff, !Z.leb_gt in Er.
    destruct tz as [[pos tzs]|].
    + destruct (negb ((length tzs =? 5)%nat || (length tzs =? 8)%nat)); [discriminate|].
      destruct (parse_hms tzs) as [[[[th tm] tsec] [| |]]|] eqn:Et; try discriminate.
      apply parse_hms_bounds in Et.
      destruct (Z.leb_spec 86400 (th * 3600 + tm * 60 + tsec)); [discriminate|].
      intros Heq; injection Heq as <-. unfold valid_dtime; simpl.
      repeat split; auto; try lia. destruct pos; lia.
    + intros Heq; injection Heq as <-. unfold valid_dtime; simpl. repeat split; auto; lia.
Qed.

Lemma strptime_valid (s : string) (d : date) :
  strptime_ymd s = Some d -> valid_date d = true.
Proof.
  unfold strptime_ymd.
  destruct (list_ascii_of_string s)
    as [|y1 [|y2 [|y3 [|y4 [|s1 [|m1 [|m2 [|s2 [|d1 [|d2 [|]]]]]]]]]]];
    try discriminate.
  destruct (Ascii.eqb s1 dash && Ascii.eqb s2 dash); [|discriminate].
  destruct (parse_digits [y1; y2; y3; y4]), (parse_digits [m1; m2]),
    (parse_day_field [d1; d2]); try discriminate.
  match goal with |- context [valid_date ?d] => destruct (valid_date d) eqn:Hv end;
    [|discriminate].
  intros H; injection H as <-. exact Hv.
Qed.

Lemma strptime_length (s : string) (d : date) :
  strptime_ymd s = Some d -> String.length s = 10%nat.
Proof.
  unfold strptime_ymd. rewrite <- (string_of_list_ascii_of_string s) at 2.
  destruct (list_ascii_of_string s)
    as [|y1 [|y2 [|y3 [|y4 [|s1 [|m1 [|m2 [|s2 [|d1 [|d2 [|]]]]]]]]]]];
    try discriminate. reflexivity.
Qed.

(** Only the last day of the calendar has no successor. *)
Lemma next_day_some (d : date) :
  valid_date d = true -> d <> mkDate 9999 12 31 -> exists d', next_day d = Some d'.
Proof.
  destruct d as [y m dd]. rewrite valid_date_spec. simpl. intros (Hy & Hm & Hd) Hne.
  unfold next_day.
  destruct (Z.ltb_spec dd (days_in_month y m)); [eauto|].
  destruct (Z.ltb_spec m 12); [eauto|]. destruct (Z.ltb_spec y 9999); [eauto|].
  exfalso. apply Hne. assert (y = 9999) by lia. assert (m = 12) by lia. subst.
  unfold days_in_month in *. simpl in *. f_equal. lia.
Qed.

Lemma add_hour_some (t : dtime) : valid_dtime t ->
  (dt_date t <> mkDate 9999 12 31 \/ hour t < 23) -> exists t', add_hour t = Some t'.
Proof.
  intros Hv Hc. pose proof Hv as (Hd & _). unfold add_hour.
  destruct (Z.ltb_spec (hour t) 23); [eauto|].
  destruct Hc as [Hc|Hc]; [|lia].
  destruct (next_day_some _ Hd Hc) as (d' & ->). eauto.
Qed.

(** ** C8: the end synthesised for a record without one *)

(** C8 (counterexample): the instant start ["2024-03-01T10:00:00Z"] gets
    the end ["2024-03-01T11:00:00+00:00"], not ["2024-03-01T11:00:00Z"]
    ([isoformat] writes the UTC offset), and the day start
    ["9999-12-31"] raises [OverflowError] instead of getting an end. *)
Lemma C8_counterexample :
  notion_to_calendar_event (record_with_date "2024-03-01T10:00:00Z" None)
  = Ok (Some (mkBody (Some "Standup") (Some "Synced from Notion: https://www.notion.so/r1")
                (GDateTime "2024-03-01T10:00:00Z") (GDateTime "2024-03-01T11:00:00+00:00")
                None))
  /\ "2024-03-01T11:00:00+00:00" <> "2024-03-01T11:00:00Z"
  /\ notion_to_calendar_event (record_with_date "9999-12-31" None) = Raise "OverflowError".
Proof. vm_compute. split; [reflexivity|split; [discriminate|reflexivity]]. Qed.

(** C8 (amended): a day start [s] without end, other than 9999-12-31,
    gets as end the [strftime] of the next calendar day (ordinal plus
    one; it reads back as that day when its year has four digits); an
    instant start without end that [fromisoformat] reads (after
    [Z] -> [+00:00]), outside the last hour of 9999-12-31, gets as end
    the [isoformat] of the time one hour (3600 s) later. *)
Theorem notion_to_calendar_event_default_end :
  (forall item s d,
     date_of item = Some (s, None) -> strptime_ymd s = Some d -> d <> mkDate 9999 12 31 ->
     exists d',
       notion_to_calendar_event item
       = Ok (Some (mkBody (Some (extract_title_from_notion item))
                     (Some (String.append "Synced from Notion: " (url item)))
                     (GDate s) (GDate (strftime_ymd d')) None))
       /\ valid_date d' = true /\ date_ord d' = date_ord d + 1
       /\ (1000 <= year d' -> strptime_ymd (strftime_ymd d') = Some d'))
  /\ (forall item s t,
     date_of item = Some (s, None) -> String.length s <> 10%nat ->
     fromisoformat (string_of_list_ascii (replace_Z (list_ascii_of_string s))) = Some t ->
     (dt_date t <> mkDate 9999 12 31 \/ hour t < 23) ->
     exists t',
       notion_to_calendar_event item
       = Ok (Some (mkBody (Some (extract_title_from_notion item))
                     (Some (String.append "Synced from Notion: " (url item)))
                     (GDateTime s) (GDateTime (isoformat t')) None))
       /\ fromisoformat (isoformat t') = Some t'
       /\ epoch_us t' = epoch_us t + 3600 * 1000000).
Proof.
  split.
  - intros item s d Hdate Hs Hne.
    pose proof (strptime_valid _ _ Hs) as Hv.
    destruct (next_day_some d Hv Hne) as (d' & Hn).
    destruct (next_day_ord d d' Hv Hn) as [Hv' Ho].
    exists d'. split; [|split; [exact Hv'|split; [exact Ho|]]].
    + unfold notion_to_calendar_event. rewrite Hdate, (strptime_length _ _ Hs).
      simpl (Nat.eqb 10 10). simpl truthy. cbv iota. rewrite Hs, Hn. reflexivity.
    + intros Hy. apply strptime_strftime; assumption.
  - intros item s t Hdate Hl Hp Hc.
    pose proof (fromisoformat_valid _ _ Hp) as Hv.
    destruct (add_hour_some t Hv Hc) as (t' & Ha).
    destruct (add_hour_epoch t t' Hv Ha) as [Hv' He].
    exists t'. split; [|split; [apply fromisoformat_isoformat; exact Hv'|exact He]].
    unfold notion_to_calendar_event. rewrite Hdate.
    rewrite (proj2 (Nat.eqb_neq _ _) Hl).
    destruct (String.eqb_spec s "") as [->|Hne]; [discriminate Hp|].
    unfold timed_default_end. rewrite Hp, Ha. reflexivity.
Qed.

Lemma C8_witness :
  (exists d',
     notion_to_calendar_event (record_with_date "2024-03-01" None)
     = Ok (Some (mkBody (Some (extract_title_from_notion (record_with_date "2024-03-01" None)))
                   (Some (String.append "Synced from Notion: "
                            (url (record_with_date "2024-03-01" None))))
                   (GDate "2024-03-01") (GDate (strftime_ymd d')) None))
     /\ valid_date d' = true /\ date_ord d' = date_ord (mkDate 2024 3 1) + 1
     /\ (1000 <= year d' -> strptime_ymd (strftime_ymd d') = Some d'))
  /\ (exists t',
     notion_to_calendar_event (record_with_date "2024-03-01T10:00:00Z" None)
     = Ok (Some (mkBody (Some (extract_title_from_notion
                               (record_with_date "2024-03-01T10:00:00Z" None)))
                   (Some (String.append "Synced from Notion: "
                            (url (record_with_date "2024-03-01T10:00:00Z" None))))
                   (GDateTime "2024-03-01T10:00:00Z") (GDateTime (isoformat t')) None))
     /\ fromisoformat (isoformat t') = Some t'
     /\ epoch_us t' = epoch_us (mkDT (mkDate 2024 3 1) 10 0 0 0 (Some 0)) + 3600 * 1000000).
Proof.
  split.
  - apply (proj1 notion_to_calendar_event_default_end
             (record_with_date "2024-03-01" None) "2024-03-01" (mkDate 2024 3 1));
      [reflexivity|vm_compute; reflexivity|discriminate].
  - apply (proj2 notion_to_calendar_event_default_end
             (record_with_date "2024-03-01T10:00:00Z" None) "2024-03-01T10:00:00Z"
             (mkDT (mkDate 2024 3 1) 10 0 0 0 (Some 0)));
      [reflexivity|discriminate|vm_compute; reflexivity|right; simpl; lia].
Defined.

(** ** C2: explicit day ranges across the two conversions *)

Lemma truthy_strptime (e : string) (d : date) :
  strptime_ymd e = Some d -> truthy (Some e) = true.
Proof.
  intros H. apply strptime_length in H. unfold truthy.
  destruct (String.eqb_spec e "") as [->|]; [discriminate H|reflexivity].
Qed.

(** C2 (code bug): [notion_to_calendar_event] copies an explicit
    inclusive day end as the calendar's exclusive end (no day added), so
    [gcal_event_to_notion_date] gives back an end one day short:
    [{start: "2024-03-01", end: "2024-03-03"}] comes back as
    [{start: "2024-03-01", end: "2024-03-02"}]. In general the calendar
    end is the record end verbatim. *)
Theorem C2_explicit_day_end_not_shifted :
  (forall item s e,
     date_of item = Some (s, Some e) -> String.length s = 10%nat -> e <> "" ->
     exists b, notion_to_calendar_event item = Ok (Some b) /\ gend b = GDate e)
  /\ match notion_to_calendar_event (record_with_date "2024-03-01" (Some "2024-03-03")) with
     | Ok (Some b) =>
         gend b = GDate "2024-03-03"
         /\ gcal_event_to_notion_date b = Ok (Some "2024-03-01", Some "2024-03-02")
     | _ => False
     end.
Proof.
  split.
  - intros item s e Hd Hl He. unfold notion_to_calendar_event. rewrite Hd, Hl.
    simpl (Nat.eqb 10 10). unfold truthy.
    destruct (String.eqb_spec e "") as [|_]; [contradiction|]. simpl.
    eexists; split; reflexivity.
  - vm_compute. split; reflexivity.
Qed.

Lemma C2_witness :
  exists b, notion_to_calendar_event (record_with_date "2024-03-01" (Some "2024-03-03"))
            = Ok (Some b) /\ gend b = GDate "2024-03-03".
Proof.
  apply (proj1 C2_explicit_day_end_not_shifted
           (record_with_date "2024-03-01" (Some "2024-03-03")) "2024-03-01" "2024-03-03");
    [reflexivity|reflexivity|discriminate].
Defined.

(** ** C9: when the record side gets no end *)

(** C9 (counterexample): a timed event whose end equals its start keeps
    that end. *)
Lemma C9_counterexample :
  gcal_event_to_notion_date
    (mkBody (Some "Call") None (GDateTime "2024-03-01T10:00:00Z")
       (GDateTime "2024-03-01T10:00:00Z") None)
  = Ok (Some "2024-03-01T10:00:00Z", Some "2024-03-01T10:00:00Z").
Proof. reflexivity. Qed.

(** C9 (amended): an all-day event gets a null end when its end minus
    one day is its start (or it has no end); a timed event's end is
    returned unchanged, also when it equals the start; the ['date']
    written by [create_notion_page] / [update_notion_page] drops an end
    equal to the start. *)
Theorem gcal_event_to_notion_date_null_end :
  (forall ev s e d d',
     gstart ev = GDate s -> gend ev = GDate e -> strptime_ymd e = Some d ->
     prev_day d = Some d' -> strftime_ymd d' = s ->
     gcal_event_to_notion_date ev = Ok (Some s, None))
  /\ (forall ev s, gstart ev = GDate s -> end_date_of (gend ev) = None ->
      gcal_event_to_notion_date ev = Ok (Some s, None))
  /\ (forall ev s e, gstart ev = GDateTime s -> gend ev = GDateTime e ->
      gcal_event_to_notion_date ev = Ok (Some s, Some e))
  /\ (forall s, date_property s (Some s) = (s, None)).
Proof.
  split; [|split; [|split]].
  - intros ev s e d d' Hs He Hp Hprev Hf.
    unfold gcal_event_to_notion_date. rewrite Hs, He. simpl end_date_of.
    rewrite (truthy_strptime _ _ Hp), Hp, Hprev, Hf, String.eqb_refl. reflexivity.
  - intros ev s Hs He. unfold gcal_event_to_notion_date. rewrite Hs, He. reflexivity.
  - intros ev s e Hs He. unfold gcal_event_to_notion_date. rewrite Hs, He. reflexivity.
  - intros s. unfold date_property. rewrite String.eqb_refl, orb_true_r. reflexivity.
Qed.

Lemma C9_witness :
  gcal_event_to_notion_date
    (mkBody (Some "Standup") None (GDate "2024-03-01") (GDate "2024-03-02") None)
  = Ok (Some "2024-03-01", None)
  /\ gcal_event_to_notion_date
       (mkBody (Some "Standup") None (GDate "2024-03-01") GNone None)
     = Ok (Some "2024-03-01", None)
  /\ gcal_event_to_notion_date
       (mkBody (Some "Call") None (GDateTime "2024-03-01T10:00:00Z")
          (GDateTime "2024-03-01T10:00:00Z") None)
     = Ok (Some "2024-03-01T10:00:00Z", Some "2024-03-01T10:00:00Z").
Proof.
  split; [|split].
  - apply (proj1 gcal_event_to_notion_date_null_end _ "2024-03-01" "2024-03-02"
             (mkDate 2024 3 2) (mkDate 2024 3 1));
      [reflexivity|reflexivity|vm_compute; reflexivity|vm_compute; reflexivity
      |vm_compute; reflexivity].
  - apply (proj1 (proj2 gcal_event_to_notion_date_null_end)); reflexivity.
  - apply (proj1 (proj2 (proj2 gcal_event_to_notion_date_null_end))); reflexivity.
Defined.

(** ** Scenarios of whole runs *)

(** C1 (counterexample): after a first run on [r1] (which creates its
    event), a second run with no change in between updates that event
    again: the forward [updated] counter is 1, not 0. *)
Lemma C1_counterexample :
  let '(res1, w1) := main (world_of [r1] []) in
  let '(res2, _) := main w1 in
  notion_to_calendar res1 = mkC4 1 0 0 0 /\ notion_to_calendar res2 = mkC4 0 1 0 0
  /\ calendar_to_notion res2 = mkRC 0 0 0.
Proof. vm_compute. repeat split. Qed.

(** C3 (code bug): when the Notion query fails, [get_notion_items]
    returns [[]] and the run goes on with no Record: the deletion sweep
    deletes the event linked to the still existing record [r1]. *)
Theorem C3_failed_fetch_deletes_linked_events :
  let w := mkWorld [r1] 2 [day_event 100 "Standup" "2024-03-01" "2024-03-02" (Some 1%nat)]
             101 no_cal_failure query_fails [] in
  let '(res, w') := main w in
  notion_to_calendar res = mkC4 0 0 0 1 /\ events w' = [] /\ pages w' = [r1]
  /\ log w' = [FetchError].
Proof. vm_compute. repeat split. Qed.

(** C4 (counterexample): a title change on the calendar also writes the
    event's dates onto the record: [r1] (2024-03-01) gets the date
    2024-03-05 of its renamed event. *)
Lemma C4_counterexample :
  let w := world_of [r1] [day_event 100 "Standup (moved)" "2024-03-05" "2024-03-06"
                            (Some 1%nat)] in
  let '(res, w') := sync_calendar_to_notion [r1] w in
  res = mkRC 0 1 0 /\ date_of r1 = Some ("2024-03-01", None)
  /\ map date_of (pages w') = [Some ("2024-03-05", None)].
Proof. vm_compute. repeat split. Qed.

(** C6 (code bug): one failing deletion ends the whole reverse pass: the
    second orphan event (101) is left in place and no later event is
    processed. *)
Theorem C6_one_failure_aborts_reverse_pass :
  let w := mkWorld [r1] 2
             [day_event 100 "Old" "2024-03-01" "2024-03-02" (Some 7%nat);
              day_event 101 "Older" "2024-03-03" "2024-03-04" (Some 8%nat)]
             102 delete_100_fails no_notion_failure [] in
  let '(res, w') := sync_calendar_to_notion [r1] w in
  res = mkRC 0 0 0 /\ map eid (events w') = [100%nat; 101%nat]
  /\ log w' = [ReverseError "HttpError"].
Proof. vm_compute. repeat split. Qed.

(** ** Frame lemmas of the API calls *)

Lemma keeps_log_ret {A} (a : A) : keeps_log (ret a).
Proof. intro w; reflexivity. Qed.

Lemma keeps_log_lift {A} (r : res A) : keeps_log (lift r).
Proof. intro w; reflexivity. Qed.

Lemma keeps_log_bind {A B} (c : M A) (f : A -> M B) :
  keeps_log c -> (forall a, keeps_log (f a)) -> keeps_log (bind c f).
Proof.
  intros Hc Hf w; unfold bind.
  specialize (Hc w); destruct (c w) as [[a|m] w']; simpl in *; [rewrite Hf|]; auto.
Qed.

Lemma keeps_log_list_by_link n : keeps_log (cal_list_by_link n).
Proof. intro w; unfold cal_list_by_link; destruct (cal_fails w _); reflexivity. Qed.

Lemma keeps_log_insert b : keeps_log (cal_insert b).
Proof. intro w; unfold cal_insert; destruct (cal_fails w _); reflexivity. Qed.

Lemma keeps_log_update i b : keeps_log (cal_update i b).
Proof.
  intro w; unfold cal_update; destruct (cal_fails w _); [reflexivity|].
  destruct (existsb _ _); reflexivity.
Qed.

Lemma keeps_log_delete i : keeps_log (cal_delete i).
Proof.
  intro w; unfold cal_delete; destruct (cal_fails w _); [reflexivity|].
  destruct (existsb _ _); reflexivity.
Qed.

Create HintDb frame.

#[local] Hint Resolve keeps_log_ret keeps_log_lift keeps_log_bind keeps_log_list_by_link
  keeps_log_insert keeps_log_update keeps_log_delete : frame.

Lemma keeps_log_sync_item item : keeps_log (sync_item item).
Proof.
  unfold sync_item; apply keeps_log_bind; auto with frame.
  intros [b|]; auto with frame.
  apply keeps_log_bind; auto with frame.
  intros [|e r]; auto with frame.
Qed.

Lemma sync_items_counts items c w :
  let '(c', w') := sync_items items c w in
  exists L, log w' = L ++ log w /\
    (c_created c' + c_updated c' + c_skipped c' + item_errors L
     = c_created c + c_updated c + c_skipped c + length items)%nat.
Proof.
  revert c w; induction items as [|item rest IH]; intros c w; simpl.
  - exists []; split; [reflexivity|unfold item_errors; simpl; lia].
  - pose proof (keeps_log_sync_item item w) as Hk.
    destruct (sync_item item w) as [[o|m] w1]; simpl in Hk.
    + specialize (IH (bump o c) w1).
      destruct (sync_items rest (bump o c) w1) as [c' w'].
      destruct IH as [L [HL Hn]]; exists L; split; [congruence|].
      destruct o; simpl in Hn; lia.
    + specialize (IH c (add_log w1 (ItemError m))).
      destruct (sync_items rest c (add_log w1 (ItemError m))) as [c' w'].
      destruct IH as [L [HL Hn]]; exists (L ++ [ItemError m]); split.
      * rewrite HL; simpl; rewrite Hk, <- app_assoc; reflexivity.
      * unfold item_errors in *; rewrite filter_app, length_app; simpl; lia.
Qed.

Lemma delete_orphans_log ids synced n w :
  let '(_, w') := delete_orphans ids synced n w in
  exists L, log w' = L ++ log w /\ item_errors L = 0%nat.
Proof.
  revert n w; induction synced as [|g rest IH]; intros n w; simpl.
  - exists []; split; reflexivity.
  - destruct (link (ebody g)) as [nid|]; [|apply IH].
    destruct (link_in ids nid); [apply IH|].
    pose proof (keeps_log_delete (eid g) w) as Hk.
    destruct (cal_delete (eid g) w) as [[u|m] w1]; simpl in Hk.
    + specialize (IH (S n) w1); destruct (delete_orphans ids rest (S n) w1) as [k w'].
      destruct IH as [L [HL H0]]; exists L; split; congruence.
    + exists [SweepError m]; split; [simpl; rewrite Hk; reflexivity|reflexivity].
Qed.

Lemma sweep_log ids w :
  let '(_, w') := sweep ids w in exists L, log w' = L ++ log w /\ item_errors L = 0%nat.
Proof.
  unfold sweep, cal_list_all; destruct (cal_fails w CListAll).
  - exists [SweepError "HttpError"]; split; reflexivity.
  - apply delete_orphans_log.
Qed.

(** C10: in a Forward Sync Pass, every fetched Record either raises (and
    prints one ["Error syncing item"] line) or increments exactly one of
    [created], [updated], [skipped]: the sum of the three counters plus the
    number of such error lines is the number of Records. Hence the sum
    never exceeds the number of Records, and equals it when no item error
    is printed. *)
Theorem sync_notion_to_calendar_counts items ids w :
  let '(r, w') := sync_notion_to_calendar items ids w in
  exists L, log w' = L ++ log w
    /\ (n_created r + n_updated r + n_skipped r + item_errors L = length items)%nat
    /\ (n_created r + n_updated r + n_skipped r <= length items)%nat
    /\ (item_errors L = 0%nat -> (n_created r + n_updated r + n_skipped r = length items)%nat).
Proof.
  unfold sync_notion_to_calendar.
  pose proof (sync_items_counts items (mkC3 0 0 0) w) as H1.
  destruct (sync_items items (mkC3 0 0 0) w) as [c w1].
  destruct H1 as [L1 [HL1 Hn1]].
  pose proof (sweep_log ids w1) as H2.
  destruct (sweep ids w1) as [d w2]; destruct H2 as [L2 [HL2 H0]].
  simpl in Hn1.
  assert (He : item_errors (L2 ++ L1) = item_errors L1)
    by (unfold item_errors in *; rewrite filter_app, length_app; lia).
  exists (L2 ++ L1); simpl; rewrite He; repeat split; [rewrite HL2, HL1, app_assoc; reflexivity|lia..].
Qed.

(** ** The reverse [deleted] counter *)

Lemma sync_events_deleted items evs c w :
  r_deleted (fst (sync_events items evs c w)) = r_deleted c.
Proof.
  revert c w; induction evs as [|g rest IH]; intros c w; simpl; [reflexivity|].
  destruct (sync_event items g w) as [[[| | |]|m] w1]; rewrite ?IH; reflexivity.
Qed.

Lemma sync_calendar_to_notion_deleted items w :
  r_deleted (fst (sync_calendar_to_notion items w)) = 0%nat.
Proof.
  unfold sync_calendar_to_notion; destruct (cal_list_all w) as [[evs|m] w1];
    [rewrite sync_events_deleted|]; reflexivity.
Qed.

(** C5 (code bug): the Reverse Sync Pass deletes an event linked to a
    Record absent from the map, but never increments its [deleted]
    counter: the reverse [deleted] count of a pass, and so of every run,
    is 0; an event linked to the missing Record 7 is deleted while the
    pass reports [deleted = 0]. *)
Theorem C5_reverse_deleted_never_counted :
  (forall items w, r_deleted (fst (sync_calendar_to_notion items w)) = 0%nat)
  /\ (forall w, r_deleted (calendar_to_notion (fst (main w))) = 0%nat)
  /\ (let w := world_of [r1] [day_event 100 "Old" "2024-03-01" "2024-03-02" (Some 7%nat)] in
      let '(res, w') := sync_calendar_to_notion [r1] w in
      events w = [day_event 100 "Old" "2024-03-01" "2024-03-02" (Some 7%nat)]
      /\ events w' = [] /\ res = mkRC 0 0 0).
Proof.
  split; [exact sync_calendar_to_notion_deleted|split].
  - intro w; unfold main; destruct (get_notion_items w) as [[items|m] w1]; [|reflexivity].
    destruct (sync_notion_to_calendar items (map pid items) w1) as [n2c w2].
    pose proof (sync_calendar_to_notion_deleted items w2) as H.
    destruct (sync_calendar_to_notion items w2) as [c2n w3]; exact H.
  - vm_compute; repeat split.
Qed.

(** ** Reverse updates of a Record *)

Lemma lookup_set_prop_same k v l : lookup k (set_prop k v l) = Some v.
Proof.
  induction l as [|[k' v'] r IH]; simpl.
  - rewrite String.eqb_refl; reflexivity.
  - destruct (String.eqb k k') eqn:E; simpl.
    + rewrite String.eqb_refl; reflexivity.
    + rewrite E; exact IH.
Qed.

Lemma lookup_set_prop_other k k' v l :
  k <> k' -> lookup k (set_prop k' v l) = lookup k l.
Proof.
  intro Hne; induction l as [|[k'' v'] r IH]; simpl.
  - apply String.eqb_neq in Hne; rewrite Hne; reflexivity.
  - destruct (String.eqb k' k'') eqn:E; simpl.
    + apply String.eqb_eq in E; subst k''.
      apply String.eqb_neq in Hne; rewrite Hne; reflexivity.
    + destruct (String.eqb k k''); [reflexivity|exact IH].
Qed.

Lemma write_title_date_date t s e ps :
  lookup "Date" (write_title_date t s e ps) = Some (PDate (Some (date_property s e))).
Proof. apply lookup_set_prop_same. Qed.

Lemma write_title_date_title t s e ps :
  lookup "Project name" (write_title_date t s e ps) = Some (PTitle [t]).
Proof.
  unfold write_title_date; rewrite lookup_set_prop_other by discriminate.
  apply lookup_set_prop_same.
Qed.

(** C4 (amended): for a linked Event whose Record is in the map and in
    the store, whose title differs from the Record's extracted title and
    whose start is non-empty, the Reverse Sync Pass rewrites the Record
    with the event's title AND the event's date range: ['Project name']
    becomes the event's title and ['Date'] becomes [(start, end)] as
    computed by [gcal_event_to_notion_date] (end dropped when empty or
    equal to start). The other Records and the events are unchanged. *)
Theorem sync_event_title_change_writes_dates items g w nid p s e
  (Hl : link (ebody g) = Some nid)
  (Hm : notion_map_get items nid = Some p)
  (Hd : gcal_event_to_notion_date (ebody g) = Ok (Some s, e))
  (Hs : s <> "")
  (Ht : summary_or_default (ebody g) <> extract_title_from_notion p)
  (Hf : notion_fails w (NUpdate nid) = false)
  (Hin : existsb (fun q => Nat.eqb (pid q) nid) (pages w) = true) :
  let '(r, w') := sync_event items g w in
  r = Ok RUpdated /\ events w' = events w
  /\ pages w' = map (fun q => if Nat.eqb (pid q) nid
                              then mkPage (pid q) (url q)
                                     (write_title_date (summary_or_default (ebody g)) s e
                                        (props q))
                              else q) (pages w)
  /\ Forall (fun q => pid q = nid ->
               date_of q = Some (date_property s e)
               /\ lookup "Project name" (props q) = Some (PTitle [summary_or_default (ebody g)]))
       (pages w').
Proof.
  unfold sync_event; rewrite Hl, Hm.
  unfold bind at 1, lift at 1; rewrite Hd.
  cbv beta iota zeta.
  assert (Htr : truthy (Some s) = true)
    by (simpl; apply String.eqb_neq in Hs; rewrite Hs; reflexivity).
  apply String.eqb_neq in Ht.
  rewrite Htr, Ht; cbv [andb negb]; cbv iota.
  unfold bind, update_notion_page, ret; cbv beta.
  rewrite Hf, Hin; cbn [fst snd events pages set_pages].
  repeat split.
  apply Forall_forall; intros q Hq Hpid.
  apply in_map_iff in Hq; destruct Hq as [q0 [Hq0 _]].
  destruct (Nat.eqb (pid q0) nid) eqn:E.
  - subst q; unfold date_of; simpl.
    rewrite write_title_date_date, write_title_date_title; split; reflexivity.
  - subst q; apply Nat.eqb_neq in E; contradiction.
Qed.


Lemma C4_witness :
  let g := day_event 100 "Standup (moved)" "2024-03-05" "2024-03-06" (Some 1%nat) in
  let w := world_of [r1] [g] in
  let '(r, w') := sync_event [r1] g w in
  r = Ok RUpdated /\ events w' = events w
  /\ pages w' = map (fun q => if Nat.eqb (pid q) 1
                              then mkPage (pid q) (url q)
                                     (write_title_date (summary_or_default (ebody g))
                                        "2024-03-05" None (props q))
                              else q) (pages w)
  /\ Forall (fun q => pid q = 1%nat ->
               date_of q = Some (date_property "2024-03-05" None)
               /\ lookup "Project name" (props q) = Some (PTitle [summary_or_default (ebody g)]))
       (pages w').
Proof.
  apply (sync_event_title_change_writes_dates [r1]
           (day_event 100 "Standup (moved)" "2024-03-05" "2024-03-06" (Some 1%nat))
           (world_of [r1] [day_event 100 "Standup (moved)" "2024-03-05" "2024-03-06"
                             (Some 1%nat)])
           1 r1 "2024-03-05" None).
  - reflexivity.
  - reflexivity.
  - vm_compute; reflexivity.
  - discriminate.
  - vm_compute; discriminate.
  - reflexivity.
  - reflexivity.
Defined.

(** ** The forward deletion sweep *)

Lemma nodup_map_inj {A B} (f : A -> B) (l : list A) x y :
  NoDup (map f l) -> In x l -> In y l -> f x = f y -> x = y.
Proof.
  induction l as [|a l IH]; simpl; [tauto|].
  intros Hnd Hx Hy Hf; inversion Hnd as [|? ? Hna Hnd']; subst.
  destruct Hx as [<-|Hx], Hy as [<-|Hy]; auto.
  - exfalso; apply Hna; rewrite Hf; apply in_map; exact Hy.
  - exfalso; apply Hna; rewrite <- Hf; apply in_map; exact Hx.
Qed.

Lemma nodup_map_filter {A B} (key : A -> B) (keep : A -> bool) (xs : list A) :
  NoDup (map key xs) -> NoDup (map key (filter keep xs)).
Proof.
  induction xs as [|x xs IH]; cbn; intro Hnd; [constructor|].
  apply NoDup_cons_iff in Hnd as [Hx Hxs].
  destruct (keep x); cbn; [|exact (IH Hxs)].
  apply NoDup_cons; [|exact (IH Hxs)].
  rewrite in_map_iff; intros [y [Hy Hin]]; apply Hx; rewrite <- Hy; apply in_map.
  exact (proj1 (proj1 (filter_In keep y xs) Hin)).
Qed.

Lemma update_events_eids (i : nat) (b : body) (l : list event) :
  map eid (map (fun e => if Nat.eqb (eid e) i then mkEvent i b else e) l) = map eid l.
Proof.
  induction l as [|e l IH]; simpl; [reflexivity|].
  destruct (Nat.eqb (eid e) i) eqn:E; simpl; rewrite IH; [apply Nat.eqb_eq in E|]; congruence.
Qed.

Lemma update_events_orphans ids (i : nat) (b : body) (l : list event) :
  orphan ids (mkEvent i b) = false ->
  (forall x, In x l -> eid x = i -> orphan ids x = false) ->
  filter (orphan ids) (map (fun e => if Nat.eqb (eid e) i then mkEvent i b else e) l)
  = filter (orphan ids) l.
Proof.
  intros Hb; induction l as [|e l IH]; intro Hl; simpl; [reflexivity|].
  rewrite IH by (intros; apply Hl; simpl; auto).
  destruct (Nat.eqb (eid e) i) eqn:E.
  - apply Nat.eqb_eq in E; rewrite Hb, (Hl e); auto; simpl; auto.
  - reflexivity.
Qed.

(** The effect of one item of the create/update loop on the events. *)
Lemma sync_item_events ids item w :
  link_in ids (pid item) = true -> ev_ok w ->
  let '(_, w1) := sync_item item w in
  ev_ok w1 /\ cal_fails w1 = cal_fails w
  /\ filter (orphan ids) (events w1) = filter (orphan ids) (events w)
  /\ (forall x, In x (map eid (events w)) -> In x (map eid (events w1)))
  /\ (length (events w1) <= S (length (events w)))%nat.
Proof.
  intros Hid Hok.
  assert (Hsame : ev_ok w /\ cal_fails w = cal_fails w
                  /\ filter (orphan ids) (events w) = filter (orphan ids) (events w)
                  /\ (forall x, In x (map eid (events w)) -> In x (map eid (events w)))
                  /\ (length (events w) <= S (length (events w)))%nat)
    by (split; [exact Hok|]; repeat split; auto).
  unfold sync_item, bind, lift, ret.
  destruct (notion_to_calendar_event item) as [[b|]|m]; [|exact Hsame|exact Hsame].
  unfold cal_list_by_link; destruct (cal_fails w (CListLink (pid item))); [exact Hsame|].
  set (b' := mkBody (summary b) (description b) (gstart b) (gend b) (Some (pid item))).
  assert (Hb' : forall i, orphan ids (mkEvent i b') = false)
    by (intro i; unfold orphan; simpl; rewrite Hid; reflexivity).
  destruct (filter (has_link (pid item)) (events w)) as [|e0 r] eqn:Hfl.
  - unfold cal_insert; destruct (cal_fails w CInsert); [exact Hsame|]; unfold set_events; simpl.
    destruct Hok as [Hnd Hfr]; repeat split; cbn [events next_eid cal_fails].
    + rewrite map_app; apply NoDup_app; [exact Hnd|simpl; repeat constructor; simpl; tauto|].
      intros a Ha [Heq|[]]; subst a.
      apply in_map_iff in Ha; destruct Ha as [x [Hx Hin]].
      rewrite Forall_forall in Hfr; specialize (Hfr x Hin); simpl in Hx; lia.
    + apply Forall_app; split.
      * eapply Forall_impl; [|exact Hfr]; intros a Ha; cbv beta in Ha; simpl; lia.
      * constructor; [simpl; lia|constructor].
    + rewrite filter_app; simpl; rewrite Hb', app_nil_r; reflexivity.
    + intros x Hx; rewrite map_app; apply in_or_app; auto.
    + rewrite length_app; simpl; lia.
  - assert (He0 : In e0 (events w) /\ has_link (pid item) e0 = true)
      by (apply filter_In; rewrite Hfl; simpl; auto).
    destruct He0 as [He0 Hl0].
    unfold cal_update; destruct (cal_fails w (CUpdate (eid e0))); [exact Hsame|].
    destruct (existsb _ (events w)); [|exact Hsame]; unfold set_events; simpl.
    destruct Hok as [Hnd Hfr]; repeat split; cbn [events next_eid cal_fails].
    + rewrite update_events_eids; exact Hnd.
    + apply Forall_forall; intros x Hx; apply in_map_iff in Hx; destruct Hx as [y [<- Hy]].
      rewrite Forall_forall in Hfr; specialize (Hfr y Hy).
      destruct (Nat.eqb (eid y) (eid e0)) eqn:E; simpl; [apply Nat.eqb_eq in E|]; lia.
    + apply update_events_orphans; [apply Hb'|].
      intros x Hx Heq; rewrite (nodup_map_inj eid (events w) x e0 Hnd Hx He0 Heq).
      unfold orphan, has_link in *; destruct (link (ebody e0)) as [n|]; [|discriminate].
      apply Nat.eqb_eq in Hl0; subst n; rewrite Hid; reflexivity.
    + intros x Hx; rewrite update_events_eids; exact Hx.
    + rewrite length_map; lia.
Qed.

Lemma sync_items_events ids items c w :
  (forall it, In it items -> link_in ids (pid it) = true) -> ev_ok w ->
  let '(_, w1) := sync_items items c w in
  ev_ok w1 /\ cal_fails w1 = cal_fails w
  /\ filter (orphan ids) (events w1) = filter (orphan ids) (events w)
  /\ (forall x, In x (map eid (events w)) -> In x (map eid (events w1)))
  /\ (length (events w1) <= length (events w) + length items)%nat.
Proof.
  revert c w; induction items as [|item rest IH]; intros c w Hits Hok; simpl.
  - split; [exact Hok|]; repeat split; auto; lia.
  - pose proof (sync_item_events ids item w (Hits item (or_introl eq_refl)) Hok) as Hs.
    assert (Hr : forall it, In it rest -> link_in ids (pid it) = true)
      by (intros; apply Hits; simpl; auto).
    destruct (sync_item item w) as [[o|m] w1].
    + destruct Hs as [Hok1 [Hc1 [Ho1 [Hi1 Hn1]]]].
      specialize (IH (bump o c) w1 Hr Hok1).
      destruct (sync_items rest (bump o c) w1) as [c' w2].
      destruct IH as [Hok2 [Hc2 [Ho2 [Hi2 Hn2]]]].
      split; [exact Hok2|]; repeat split; auto; try congruence; lia.
    + destruct Hs as [Hok1 [Hc1 [Ho1 [Hi1 Hn1]]]].
      assert (Hok1' : ev_ok (add_log w1 (ItemError m))) by exact Hok1.
      specialize (IH c (add_log w1 (ItemError m)) Hr Hok1').
      destruct (sync_items rest c (add_log w1 (ItemError m))) as [c' w2].
      destruct IH as [Hok2 [Hc2 [Ho2 [Hi2 Hn2]]]]; simpl in *.
      split; [exact Hok2|]; repeat split; auto; try congruence; lia.
Qed.

Lemma set_events_twice w l1 n1 l2 n2 :
  set_events (set_events w l1 n1) l2 n2 = set_events w l2 n2.
Proof. destruct w; reflexivity. Qed.

Lemma set_events_same w : set_events w (events w) (next_eid w) = w.
Proof. destruct w; reflexivity. Qed.

Lemma filter_filter {A} (p q : A -> bool) (l : list A) :
  filter p (filter q l) = filter (fun x => q x && p x) l.
Proof.
  induction l as [|a l IH]; simpl; [reflexivity|].
  destruct (q a); simpl; [destruct (p a); simpl|]; rewrite IH; reflexivity.
Qed.

Lemma orphan_linked ids e : orphan ids e = true -> linked e = true.
Proof. unfold orphan, linked; destruct (link (ebody e)); [reflexivity|discriminate]. Qed.

(** Without failing calls, the deletion loop deletes, by id, exactly the
    orphans among the listed events, and counts them. *)
Lemma delete_orphans_spec ids synced n w :
  (forall c, cal_fails w c = false) -> NoDup (map eid synced) ->
  (forall g, In g synced -> orphan ids g = true -> In (eid g) (map eid (events w))) ->
  delete_orphans ids synced n w =
  ((n + length (filter (orphan ids) synced))%nat,
   set_events w (filter (fun e => negb (existsb (fun g => orphan ids g && Nat.eqb (eid g) (eid e))
                                              synced)) (events w)) (next_eid w)).
Proof.
  revert n w; induction synced as [|g rest IH]; intros n w Hf Hnd Hin; simpl.
  - rewrite Nat.add_0_r, filter_true, set_events_same; reflexivity.
  - inversion Hnd as [|? ? Hna Hnd']; subst.
    assert (Hrest : forall g', In g' rest -> orphan ids g' = true
                               -> In (eid g') (map eid (events w)))
      by (intros; apply Hin; simpl; auto).
    destruct (link (ebody g)) as [nid|] eqn:Hl.
    + destruct (link_in ids nid) eqn:Hli.
      * assert (Ho : orphan ids g = false) by (unfold orphan; rewrite Hl, Hli; reflexivity).
        rewrite Ho, IH by auto; reflexivity.
      * assert (Ho : orphan ids g = true) by (unfold orphan; rewrite Hl, Hli; reflexivity).
        rewrite Ho.
        assert (Hex : existsb (fun e => Nat.eqb (eid e) (eid g)) (events w) = true).
        { specialize (Hin g (or_introl eq_refl) Ho).
          apply in_map_iff in Hin; destruct Hin as [x [Hx Hxin]].
          apply existsb_exists; exists x; split; [exact Hxin|apply Nat.eqb_eq; exact Hx]. }
        unfold cal_delete; rewrite Hf, Hex.
        rewrite IH; simpl.
        -- rewrite set_events_twice, filter_filter; f_equal; [lia|].
           f_equal; apply filter_ext; intro e.
           rewrite (Nat.eqb_sym (eid g) (eid e)).
           destruct (Nat.eqb (eid e) (eid g)), (existsb _ rest); reflexivity.
        -- intro c; apply Hf.
        -- exact Hnd'.
        -- intros g' Hg' Ho'; simpl.
           specialize (Hrest g' Hg' Ho').
           apply in_map_iff in Hrest; destruct Hrest as [x [Hx Hxin]].
           apply in_map_iff; exists x; split; [exact Hx|].
           apply filter_In; split; [exact Hxin|].
           destruct (Nat.eqb (eid x) (eid g)) eqn:E; [|reflexivity].
           apply Nat.eqb_eq in E; exfalso; apply Hna; rewrite <- E, Hx; apply in_map; exact Hg'.
    + assert (Ho : orphan ids g = false) by (unfold orphan; rewrite Hl; reflexivity).
      rewrite Ho, IH by auto; reflexivity.
Qed.

Lemma sweep_spec ids w :
  (forall c, cal_fails w c = false) -> ev_ok w -> (length (events w) <= 2500)%nat ->
  sweep ids w =
  (length (filter (orphan ids) (events w)),
   set_events w (filter (fun e => negb (existsb (fun g => orphan ids g && Nat.eqb (eid g) (eid e))
                                              (filter linked (events w)))) (events w))
     (next_eid w)).
Proof.
  intros Hf [Hnd Hfr] Hlen.
  unfold sweep, cal_list_all; rewrite Hf, firstn_all2 by exact Hlen.
  rewrite delete_orphans_spec; auto.
  - simpl; f_equal; rewrite filter_filter; f_equal; apply filter_ext; intro e.
    destruct (orphan ids e) eqn:Ho; [rewrite (orphan_linked ids e Ho)|destruct (linked e)];
      reflexivity.
  - apply nodup_map_filter; exact Hnd.
  - intros g Hg _; apply filter_In in Hg; apply in_map; tauto.
Qed.

(** C7 (amended): when no calendar call fails, the events are at most
    2500 even after the items' inserts (so that the single listing of
    [maxResults = 2500] holds them all), and the event ids are distinct
    and below the next id, one Forward Sync Pass with
    [notion_ids = map pid items] deletes exactly the events linked to an
    id absent from [notion_ids]: its [deleted] counter is their number,
    an event of the calendar keeps its id after the pass if and only if it
    is not such an orphan (unlinked events and events linked to present
    Records all stay), and no orphan is left. *)
Theorem sync_notion_to_calendar_orphans items w
  (Hf : forall c, cal_fails w c = false)
  (Hlen : (length (events w) + length items <= 2500)%nat)
  (Hok : ev_ok w) :
  let ids := map pid items in
  let '(r, w') := sync_notion_to_calendar items ids w in
  n_deleted r = length (filter (orphan ids) (events w))
  /\ (forall e, In e (events w) -> (In (eid e) (map eid (events w')) <-> orphan ids e = false))
  /\ Forall (fun e => orphan ids e = false) (events w').
Proof.
  intro ids.
  assert (Hits : forall it, In it items -> link_in ids (pid it) = true).
  { intros it Hit; apply existsb_exists; exists (pid it); split;
      [apply in_map; exact Hit|apply Nat.eqb_refl]. }
  unfold sync_notion_to_calendar.
  pose proof (sync_items_events ids items (mkC3 0 0 0) w Hits Hok) as Hs.
  destruct (sync_items items (mkC3 0 0 0) w) as [c w1].
  destruct Hs as [Hok1 [Hc1 [Ho1 [Hi1 Hn1]]]].
  rewrite (sweep_spec ids w1); [|intro x; rewrite Hc1; apply Hf|exact Hok1|lia].
  cbn [n_deleted fst snd events set_events].
  set (P := fun e => negb (existsb (fun g => orphan ids g && Nat.eqb (eid g) (eid e))
                             (filter linked (events w1)))).
  assert (HP : forall x, In x (events w1) -> P x = true -> orphan ids x = false).
  { intros x Hx HPx; destruct (orphan ids x) eqn:Ho; [|reflexivity].
    unfold P in HPx; apply negb_true_iff in HPx.
    assert (Hex : existsb (fun g => orphan ids g && Nat.eqb (eid g) (eid x))
                    (filter linked (events w1)) = true).
    { apply existsb_exists; exists x; split.
      - apply filter_In; split; [exact Hx|exact (orphan_linked ids x Ho)].
      - rewrite Ho, Nat.eqb_refl; reflexivity. }
    congruence. }
  split; [rewrite Ho1; reflexivity|split].
  - intros e He; split.
    + intro Hin; apply in_map_iff in Hin; destruct Hin as [x [Hx Hxin]].
      apply filter_In in Hxin; destruct Hxin as [Hx1 HPx].
      destruct (orphan ids e) eqn:Ho; [|reflexivity].
      assert (He1 : In e (filter (orphan ids) (events w1)))
        by (rewrite Ho1; apply filter_In; auto).
      apply filter_In in He1; destruct He1 as [He1 _].
      destruct Hok1 as [Hnd1 _].
      rewrite (nodup_map_inj eid (events w1) x e Hnd1 Hx1 He1 Hx) in HPx.
      rewrite (HP e He1 HPx) in Ho; discriminate.
    + intro Ho.
      pose proof (Hi1 (eid e) (in_map eid _ e He)) as Hin.
      apply in_map_iff in Hin; destruct Hin as [x [Hx Hx1]].
      apply in_map_iff; exists x; split; [exact Hx|].
      apply filter_In; split; [exact Hx1|].
      unfold P; apply negb_true_iff.
      destruct (existsb _ _) eqn:Hex; [exfalso|reflexivity].
      apply existsb_exists in Hex; destruct Hex as [g [Hg Hog]].
      apply andb_true_iff in Hog; destruct Hog as [Hog Heq]; apply Nat.eqb_eq in Heq.
      apply filter_In in Hg; destruct Hg as [Hg _].
      destruct Hok1 as [Hnd1 _].
      rewrite (nodup_map_inj eid (events w1) g x Hnd1 Hg Hx1 Heq) in Hog.
      assert (Hx0 : In x (filter (orphan ids) (events w)))
        by (rewrite <- Ho1; apply filter_In; auto).
      apply filter_In in Hx0; destruct Hx0 as [Hx0 _].
      destruct Hok as [Hnd _].
      rewrite (nodup_map_inj eid (events w) x e Hnd Hx0 He Hx) in Hog; congruence.
  - apply Forall_forall; intros x Hx; apply filter_In in Hx; destruct Hx as [Hx HPx].
    exact (HP x Hx HPx).
Qed.

(** C7 (counterexample): the sweep sees only the first 2500 listed events:
    an orphan listed after 2500 unlinked events is not deleted. And one
    failing deletion ends the sweep: orphan 101 stays when the deletion of
    orphan 100 fails. *)
Lemma C7_counterexample :
  (let w := world_of [] (busy_days 2500
                           ++ [day_event 2500 "Old" "2024-03-01" "2024-03-02" (Some 7%nat)]) in
   let '(r, w') := sync_notion_to_calendar [] [] w in
   n_deleted r = 0%nat /\ length (events w') = 2501%nat)
  /\ (let w := mkWorld [] 2
                 [day_event 100 "Old" "2024-03-01" "2024-03-02" (Some 7%nat);
                  day_event 101 "Older" "2024-03-03" "2024-03-04" (Some 8%nat)]
                 102 delete_100_fails no_notion_failure [] in
      let '(r, w') := sync_notion_to_calendar [] [] w in
      n_deleted r = 0%nat /\ map eid (events w') = [100%nat; 101%nat]).
Proof. split; vm_compute; split; reflexivity. Qed.

Lemma C7_witness :
  (forall c, cal_fails (world_of [r1] [day_event 100 "Old" "2024-03-01" "2024-03-02" (Some 7%nat);
                                       day_event 101 "Lunch" "2024-03-05" "2024-03-06" None]) c
             = false)
  /\ (length (events (world_of [r1] [day_event 100 "Old" "2024-03-01" "2024-03-02" (Some 7%nat);
                                     day_event 101 "Lunch" "2024-03-05" "2024-03-06" None]))
      + length [r1] <= 2500)%nat
  /\ ev_ok (world_of [r1] [day_event 100 "Old" "2024-03-01" "2024-03-02" (Some 7%nat);
                          day_event 101 "Lunch" "2024-03-05" "2024-03-06" None])
  /\ (let ids := map pid [r1] in
      let '(r, w') := sync_notion_to_calendar [r1] ids
                        (world_of [r1] [day_event 100 "Old" "2024-03-01" "2024-03-02" (Some 7%nat);
                                        day_event 101 "Lunch" "2024-03-05" "2024-03-06" None]) in
      n_deleted r = length (filter (orphan ids)
                              (events (world_of [r1]
                                 [day_event 100 "Old" "2024-03-01" "2024-03-02" (Some 7%nat);
                                  day_event 101 "Lunch" "2024-03-05" "2024-03-06" None])))
      /\ (forall e, In e (events (world_of [r1]
                             [day_event 100 "Old" "2024-03-01" "2024-03-02" (Some 7%nat);
                              day_event 101 "Lunch" "2024-03-05" "2024-03-06" None]))
                    -> (In (eid e) (map eid (events w')) <-> orphan ids e = false))
      /\ Forall (fun e => orphan ids e = false) (events w')).
Proof.
  assert (Hf : forall c, cal_fails (world_of [r1]
                 [day_event 100 "Old" "2024-03-01" "2024-03-02" (Some 7%nat);
                  day_event 101 "Lunch" "2024-03-05" "2024-03-06" None]) c = false)
    by (intro c; reflexivity).
  assert (Hlen : (length (events (world_of [r1]
                   [day_event 100 "Old" "2024-03-01" "2024-03-02" (Some 7%nat);
                    day_event 101 "Lunch" "2024-03-05" "2024-03-06" None])) + length [r1]
                  <= 2500)%nat) by (simpl; lia).
  assert (Hok : ev_ok (world_of [r1]
                  [day_event 100 "Old" "2024-03-01" "2024-03-02" (Some 7%nat);
                   day_event 101 "Lunch" "2024-03-05" "2024-03-06" None])).
  { split; simpl.
    - repeat constructor; simpl; lia.
    - repeat constructor; simpl; lia. }
  split; [exact Hf|split; [exact Hlen|split; [exact Hok|]]].
  exact (sync_notion_to_calendar_orphans [r1] _ Hf Hlen Hok).
Defined.

(** ** Two runs in a row *)

Lemma has_link_iff n e : has_link n e = true <-> link (ebody e) = Some n.
Proof.
  unfold has_link; destruct (link (ebody e)) as [m|]; split; intro H; try discriminate.
  - apply Nat.eqb_eq in H; subst; reflexivity.
  - injection H as ->; apply Nat.eqb_refl.
Qed.

Lemma filter_nil_existsb {A} (p : A -> bool) l : filter p l = [] -> existsb p l = false.
Proof.
  induction l as [|a l IH]; simpl; [reflexivity|].
  destruct (p a); [discriminate|exact IH].
Qed.

Lemma has_event_some p b : notion_to_calendar_event p = Ok (Some b) -> has_event p = true.
Proof. unfold has_event; intros ->; reflexivity. Qed.

Lemma has_event_none p : notion_to_calendar_event p = Ok None -> has_event p = false.
Proof. unfold has_event; intros ->; reflexivity. Qed.

(** One item of the create/update loop when no calendar call fails. *)
Lemma sync_item_step it w o :
  (forall c, cal_fails w c = false) -> ev_ok w -> unique_links (events w) ->
  notion_to_calendar_event it = Ok o ->
  let '(r, w') := sync_item it w in
  pages w' = pages w /\ next_pid w' = next_pid w /\ cal_fails w' = cal_fails w
  /\ notion_fails w' = notion_fails w /\ log w' = log w
  /\ ev_ok w' /\ unique_links (events w')
  /\ (length (events w') <= S (length (events w)))%nat
  /\ r = Ok (match o with
             | None => Skipped
             | Some _ => if linked_to (pid it) (events w) then Updated else Created
             end)
  /\ (forall x, In x (events w') ->
        (In x (events w) /\ (has_event it = true -> link (ebody x) <> Some (pid it)))
        \/ (exists b, o = Some b /\ ebody x = with_link b (pid it)))
  /\ (has_event it = true -> exists x, In x (events w') /\ link (ebody x) = Some (pid it))
  /\ (forall x, In x (events w) -> (has_event it = true -> link (ebody x) <> Some (pid it))
        -> In x (events w'))
  /\ (forall n y, In y (events w) -> link (ebody y) = Some n
        -> exists y', In y' (events w') /\ link (ebody y') = Some n).
Proof.
  intros Hf Hok Hu Ho.
  unfold sync_item, bind, lift, ret; rewrite Ho.
  destruct o as [b|].
  2:{ assert (He : has_event it = false) by (apply has_event_none; exact Ho).
      rewrite He.
      repeat split; auto; try discriminate.
      - apply Hok. - apply Hok.
      - intros x Hx; left; split; [exact Hx|discriminate].
      - intros n y Hy Hl; exists y; auto. }
  assert (He : has_event it = true) by (apply (has_event_some it b); exact Ho).
  rewrite He.
  unfold cal_list_by_link; rewrite Hf.
  fold (with_link b (pid it)).
  destruct (filter (has_link (pid it)) (events w)) as [|e0 r] eqn:Hfl.
  - (* insert *)
    assert (Hnl : linked_to (pid it) (events w) = false)
      by (unfold linked_to; apply filter_nil_existsb; exact Hfl).
    assert (Hno : forall x, In x (events w) -> link (ebody x) <> Some (pid it)).
    { intros x Hx Hl.
      assert (Hin : In x (filter (has_link (pid it)) (events w)))
        by (apply filter_In; split; [exact Hx|apply has_link_iff; exact Hl]).
      rewrite Hfl in Hin; destruct Hin. }
    unfold cal_insert; rewrite Hf, Hnl; unfold set_events.
    destruct Hok as [Hnd Hfr].
    repeat split; cbn [events pages next_pid next_eid cal_fails notion_fails log].
    + rewrite map_app; apply NoDup_app; [exact Hnd|simpl; repeat constructor; simpl; tauto|].
      intros a Ha [Heq|[]]; subst a.
      apply in_map_iff in Ha; destruct Ha as [x [Hx Hin]].
      rewrite Forall_forall in Hfr; specialize (Hfr x Hin); simpl in Hx; lia.
    + apply Forall_app; split.
      * eapply Forall_impl; [|exact Hfr]; intros a Ha; cbv beta in Ha; simpl; lia.
      * constructor; [simpl; lia|constructor].
    + intros x y n Hx Hy Hlx Hly.
      apply in_app_or in Hx; apply in_app_or in Hy.
      destruct Hx as [Hx|[<-|[]]], Hy as [Hy|[<-|[]]].
      * exact (Hu x y n Hx Hy Hlx Hly).
      * simpl in Hly; injection Hly as <-; exfalso; exact (Hno x Hx Hlx).
      * simpl in Hlx; injection Hlx as <-; exfalso; exact (Hno y Hy Hly).
      * reflexivity.
    + rewrite length_app; simpl; lia.
    + intros x Hx; apply in_app_or in Hx; destruct Hx as [Hx|[<-|[]]].
      * left; split; [exact Hx|intros _; apply Hno; exact Hx].
      * right; exists b; split; reflexivity.
    + intros _; exists (mkEvent (next_eid w) (with_link b (pid it))); split;
        [apply in_or_app; right; left; reflexivity|reflexivity].
    + intros x Hx _; apply in_or_app; left; exact Hx.
    + intros n y Hy Hl; exists y; split; [apply in_or_app; left; exact Hy|exact Hl].
  - (* update *)
    assert (He0 : In e0 (events w) /\ has_link (pid it) e0 = true)
      by (apply filter_In; rewrite Hfl; simpl; auto).
    destruct He0 as [He0 Hl0]; apply has_link_iff in Hl0.
    assert (Hl : linked_to (pid it) (events w) = true).
    { unfold linked_to; apply existsb_exists; exists e0; split; [exact He0|].
      apply has_link_iff; exact Hl0. }
    assert (Hex : existsb (fun e => Nat.eqb (eid e) (eid e0)) (events w) = true)
      by (apply existsb_exists; exists e0; split; [exact He0|apply Nat.eqb_refl]).
    unfold cal_update; rewrite Hf, Hex, Hl; unfold set_events.
    destruct Hok as [Hnd Hfr].
    set (f := fun e => if Nat.eqb (eid e) (eid e0) then mkEvent (eid e0) (with_link b (pid it))
                       else e).
    assert (Hfe : forall y, In y (events w) ->
                  (y = e0 /\ f y = mkEvent (eid e0) (with_link b (pid it)))
                  \/ (y <> e0 /\ f y = y)).
    { intros y Hy; unfold f; destruct (Nat.eqb (eid y) (eid e0)) eqn:E.
      - apply Nat.eqb_eq in E; left; split; [|reflexivity].
        exact (nodup_map_inj eid (events w) y e0 Hnd Hy He0 E).
      - right; split; [|reflexivity]; intros ->; rewrite Nat.eqb_refl in E; discriminate. }
    assert (Hlf : forall y, In y (events w) -> link (ebody (f y)) = link (ebody y)).
    { intros y Hy; destruct (Hfe y Hy) as [[-> ->]|[_ ->]]; [simpl; rewrite Hl0|]; reflexivity. }
    repeat split; cbn [events pages next_pid next_eid cal_fails notion_fails log].
    + unfold f; rewrite update_events_eids; exact Hnd.
    + apply Forall_forall; intros x Hx; apply in_map_iff in Hx; destruct Hx as [y [<- Hy]].
      rewrite Forall_forall in Hfr; specialize (Hfr y Hy).
      unfold f; destruct (Nat.eqb (eid y) (eid e0)) eqn:E; simpl; [apply Nat.eqb_eq in E|]; lia.
    + intros x y n Hx Hy Hlx Hly.
      apply in_map_iff in Hx; destruct Hx as [x0 [<- Hx0]].
      apply in_map_iff in Hy; destruct Hy as [y0 [<- Hy0]].
      rewrite Hlf in Hlx, Hly by assumption.
      rewrite (Hu x0 y0 n Hx0 Hy0 Hlx Hly); reflexivity.
    + rewrite length_map; lia.
    + intros x Hx; apply in_map_iff in Hx; destruct Hx as [y [<- Hy]].
      destruct (Hfe y Hy) as [[-> ->]|[Hne ->]].
      * right; exists b; split; reflexivity.
      * left; split; [exact Hy|intros _ Hly; apply Hne; exact (Hu y e0 (pid it) Hy He0 Hly Hl0)].
    + intros _; exists (f e0); split; [apply in_map; exact He0|rewrite Hlf by exact He0; exact Hl0].
    + intros x Hx Hnx; apply in_map_iff; exists x; split; [|exact Hx].
      destruct (Hfe x Hx) as [[-> _]|[_ ->]]; [exfalso; exact (Hnx eq_refl Hl0)|reflexivity].
    + intros n y Hy Hly; exists (f y); split; [apply in_map; exact Hy|rewrite Hlf; assumption].
Qed.

Lemma app_same_nil {A} (L l : list A) : L ++ l = l -> L = [].
Proof.
  intro H; apply (f_equal (@length A)) in H; rewrite length_app in H.
  destruct L; [reflexivity|simpl in H; lia].
Qed.


(** The create/update loop when no calendar call fails and no item error
    is printed. *)
Lemma sync_items_run items c w :
  (forall c, cal_fails w c = false) -> ev_ok w -> unique_links (events w) ->
  NoDup (map pid items) ->
  log (snd (sync_items items c w)) = log w ->
  let '(c', w') := sync_items items c w in
  pages w' = pages w /\ next_pid w' = next_pid w /\ cal_fails w' = cal_fails w
  /\ notion_fails w' = notion_fails w /\ log w' = log w
  /\ ev_ok w' /\ unique_links (events w')
  /\ (length (events w') <= length (events w) + length items)%nat
  /\ (forall it, In it items -> exists o, notion_to_calendar_event it = Ok o)
  /\ ((forall it, In it items -> has_event it = true -> linked_to (pid it) (events w) = true) ->
      c' = mkC3 (c_created c) (c_updated c + length (filter has_event items))
                (c_skipped c + length (filter (fun it => negb (has_event it)) items)))
  /\ (forall x, In x (events w') ->
        (In x (events w)
         /\ forall it, In it items -> has_event it = true -> link (ebody x) <> Some (pid it))
        \/ (exists it b, In it items /\ notion_to_calendar_event it = Ok (Some b)
                         /\ ebody x = with_link b (pid it)))
  /\ (forall it, In it items -> has_event it = true ->
        exists x, In x (events w') /\ link (ebody x) = Some (pid it))
  /\ (forall x, In x (events w) ->
        (forall it, In it items -> has_event it = true -> link (ebody x) <> Some (pid it)) ->
        In x (events w')).
Proof.
  revert c w; induction items as [|item rest IH]; intros c w Hf Hok Hu Hnd Hlog; simpl.
  - repeat split; auto; try lia; try (intros; contradiction).
    + apply Hok. + apply Hok.
    + intros _; destruct c; simpl; f_equal; lia.
  - inversion Hnd as [|? ? Hna Hnd']; subst.
    destruct (notion_to_calendar_event item) as [o|m] eqn:Ho.
    2:{ exfalso. simpl in Hlog.
        assert (Hr : sync_item item w = (Raise m, w))
          by (unfold sync_item, bind, lift; rewrite Ho; reflexivity).
        rewrite Hr in Hlog.
        pose proof (sync_items_counts rest c (add_log w (ItemError m))) as Hc.
        destruct (sync_items rest c (add_log w (ItemError m))) as [c' w'].
        destruct Hc as [L [HL _]]; simpl in Hlog, HL.
        rewrite Hlog in HL.
        assert (Hz : (L ++ [ItemError m]) ++ log w = log w)
          by (rewrite <- app_assoc; simpl; congruence).
        apply app_same_nil in Hz; destruct L; discriminate. }
    pose proof (sync_item_step item w o Hf Hok Hu Ho) as Hs.
    simpl in Hlog.
    destruct (sync_item item w) as [r w1].
    destruct Hs as [Hp1 [Hn1 [Hc1 [Hnf1 [Hl1 [Hok1 [Hu1 [Hlen1 [Hr1 [S1 [S2 [S3 S5]]]]]]]]]]]].
    subst r.
    assert (Hf1 : forall c, cal_fails w1 c = false) by (intro; rewrite Hc1; apply Hf).
    specialize (IH (bump (match o with
                          | None => Skipped
                          | Some _ => if linked_to (pid item) (events w) then Updated else Created
                          end) c) w1 Hf1 Hok1 Hu1 Hnd').
    rewrite Hl1 in IH; specialize (IH Hlog).
    destruct (sync_items rest _ w1) as [c' w'].
    destruct IH as [Hp2 [Hn2 [Hc2 [Hnf2 [Hl2 [Hok2 [Hu2 [Hlen2 [Hall2 [Hcnt2 [F1 [F2 F3]]]]]]]]]]]].
    assert (Hpid : forall it, In it rest -> pid it <> pid item).
    { intros it Hit Heq; apply Hna; rewrite <- Heq; apply in_map; exact Hit. }
    do 5 (split; [congruence|]).
    split; [exact Hok2|]; split; [exact Hu2|]; split; [simpl; lia|].
    split; [|split; [|split; [|split]]].
    + intros it [<-|Hit]; [exists o; exact Ho|exact (Hall2 it Hit)].
    + intro Hlk.
      assert (Hlk' : forall it, In it rest -> has_event it = true ->
                     linked_to (pid it) (events w1) = true).
      { intros it Hit Hev; specialize (Hlk it (or_intror Hit) Hev).
        unfold linked_to in *; apply existsb_exists in Hlk; destruct Hlk as [y [Hy Hly]].
        apply has_link_iff in Hly; destruct (S5 _ y Hy Hly) as [y' [Hy' Hly']].
        apply existsb_exists; exists y'; split; [exact Hy'|apply has_link_iff; exact Hly']. }
      rewrite (Hcnt2 Hlk').
      destruct o as [b|].
      * rewrite (has_event_some item b Ho); simpl.
        rewrite (Hlk item (or_introl eq_refl) (has_event_some item b Ho)); simpl.
        f_equal; lia.
      * rewrite (has_event_none item Ho); simpl; f_equal; lia.
    + intros x Hx; destruct (F1 x Hx) as [[Hx1 Hnt]|Hex].
      * destruct (S1 x Hx1) as [[Hx0 Hnt0]|[b [-> Hb]]].
        -- left; split; [exact Hx0|].
           intros it [<-|Hit]; [exact Hnt0|exact (Hnt it Hit)].
        -- right; exists item, b; split; [left; reflexivity|split; assumption].
      * destruct Hex as [it [b [Hit [Hb Hx']]]].
        right; exists it, b; split; [right; exact Hit|split; assumption].
    + intros it [<-|Hit] Hev.
      * destruct (S2 Hev) as [x [Hx Hlx]]; exists x; split; [|exact Hlx].
        apply F3; [exact Hx|].
        intros it' Hit' _ Hl'; rewrite Hlx in Hl'; injection Hl' as Heq.
        exact (Hpid it' Hit' (eq_sym Heq)).
      * exact (F2 it Hit Hev).
    + intros x Hx Hnt; apply F3.
      * apply S3; [exact Hx|exact (Hnt item (or_introl eq_refl))].
      * intros it Hit; exact (Hnt it (or_intror Hit)).
Qed.

Lemma sweep_pred ids l x :
  NoDup (map eid l) -> In x l ->
  existsb (fun g => orphan ids g && Nat.eqb (eid g) (eid x)) (filter linked l) = orphan ids x.
Proof.
  intros Hnd Hx.
  destruct (orphan ids x) eqn:Ho.
  - apply existsb_exists; exists x; split.
    + apply filter_In; split; [exact Hx|exact (orphan_linked ids x Ho)].
    + rewrite Ho, Nat.eqb_refl; reflexivity.
  - destruct (existsb _ _) eqn:Hex; [|reflexivity].
    apply existsb_exists in Hex; destruct Hex as [g [Hg Hog]].
    apply andb_true_iff in Hog; destruct Hog as [Hog Heq]; apply Nat.eqb_eq in Heq.
    apply filter_In in Hg; destruct Hg as [Hg _].
    rewrite (nodup_map_inj eid l g x Hnd Hg Hx Heq) in Hog; congruence.
Qed.

(** The deletion sweep when no calendar call fails and the events fit in
    one listing. *)
Lemma sweep_run ids w :
  (forall c, cal_fails w c = false) -> ev_ok w -> unique_links (events w) ->
  (length (events w) <= 2500)%nat ->
  let '(d, w') := sweep ids w in
  d = length (filter (orphan ids) (events w))
  /\ pages w' = pages w /\ next_pid w' = next_pid w /\ cal_fails w' = cal_fails w
  /\ notion_fails w' = notion_fails w /\ log w' = log w
  /\ ev_ok w' /\ unique_links (events w')
  /\ (length (events w') <= length (events w))%nat
  /\ (forall x, In x (events w') <-> In x (events w) /\ orphan ids x = false).
Proof.
  intros Hf Hok Hu Hlen.
  rewrite (sweep_spec ids w Hf Hok Hlen).
  destruct Hok as [Hnd Hfr].
  rewrite (filter_ext_in (fun e => negb (existsb (fun g => orphan ids g && Nat.eqb (eid g) (eid e))
                                                  (filter linked (events w))))
             (fun x => negb (orphan ids x)) (events w))
    by (intros x Hx; rewrite sweep_pred by assumption; reflexivity).
  unfold set_events; cbn [events pages next_pid next_eid cal_fails notion_fails log].
  split; [reflexivity|].
  do 5 (split; [reflexivity|]).
  split; [split|split; [|split]].
  - apply nodup_map_filter; exact Hnd.
  - apply Forall_forall; intros x Hx; apply filter_In in Hx.
    rewrite Forall_forall in Hfr; exact (Hfr x (proj1 Hx)).
  - intros x y n Hx Hy; apply filter_In in Hx; apply filter_In in Hy.
    exact (Hu x y n (proj1 Hx) (proj1 Hy)).
  - apply filter_length_le.
  - intro x; rewrite filter_In, negb_true_iff; tauto.
Qed.

Lemma notion_map_get_some items n p :
  notion_map_get items n = Some p -> In p items /\ pid p = n.
Proof.
  unfold notion_map_get; intro H; apply find_some in H; destruct H as [H1 H2].
  apply in_rev in H1; apply Nat.eqb_eq in H2; auto.
Qed.

Lemma notion_map_get_in items p :
  NoDup (map pid items) -> In p items -> notion_map_get items (pid p) = Some p.
Proof.
  intros Hnd Hp; unfold notion_map_get.
  destruct (find (fun q => Nat.eqb (pid q) (pid p)) (rev items)) as [q|] eqn:E.
  - apply find_some in E; destruct E as [Hq Heq]; apply in_rev in Hq; apply Nat.eqb_eq in Heq.
    rewrite (nodup_map_inj pid items q p Hnd Hq Hp Heq); reflexivity.
  - exfalso; pose proof (find_none _ _ E p (proj1 (in_rev items p) Hp)) as H.
    cbv beta in H; rewrite Nat.eqb_refl in H; discriminate.
Qed.

Lemma notion_map_get_none items n :
  notion_map_get items n = None -> ~ In n (map pid items).
Proof.
  unfold notion_map_get; intros E Hn; apply in_map_iff in Hn; destruct Hn as [p [Hp Hin]].
  pose proof (find_none _ _ E p (proj1 (in_rev items p) Hin)) as H.
  cbv beta in H; rewrite Hp, Nat.eqb_refl in H; discriminate.
Qed.

Lemma sync_event_quiet items g w :
  quiet_event items g = true ->
  sync_event items g w = (Ok RNothing, w) \/ exists m, sync_event items g w = (Raise m, w).
Proof.
  unfold quiet_event, sync_event, bind, lift, ret.
  destruct (link (ebody g)) as [n|].
  - destruct (notion_map_get items n) as [p|]; [|discriminate].
    unfold quiet_pair; destruct (gcal_event_to_notion_date (ebody g)) as [[s e]|m];
      [|intros _; right; exists m; reflexivity].
    intro Hq; apply negb_true_iff in Hq; rewrite Hq; left; reflexivity.
  - unfold quiet_native; destruct (gcal_event_to_notion_date (ebody g)) as [[s e]|m];
      [|intros _; right; exists m; reflexivity].
    intro Hq; apply negb_true_iff in Hq; rewrite Hq; left; reflexivity.
Qed.

Lemma sync_events_quiet items evs c w :
  Forall (fun g => quiet_event items g = true) evs -> fst (sync_events items evs c w) = c.
Proof.
  revert w; induction evs as [|g rest IH]; intros w Hq; simpl; [reflexivity|].
  inversion Hq as [|? ? Hg Hr]; subst.
  destruct (sync_event_quiet items g w Hg) as [-> | [m ->]]; [apply IH; exact Hr|reflexivity].
Qed.

Lemma keeps_log_create t s e : keeps_log (create_notion_page t s e).
Proof. intro w; unfold create_notion_page; destruct (notion_fails w NCreate); reflexivity. Qed.

Lemma keeps_log_update_page n t s e : keeps_log (update_notion_page n t s e).
Proof.
  intro w; unfold update_notion_page; destruct (notion_fails w (NUpdate n)); [reflexivity|].
  destruct (existsb _ _); reflexivity.
Qed.

#[local] Hint Resolve keeps_log_create keeps_log_update_page : frame.

Lemma keeps_log_sync_event items g : keeps_log (sync_event items g).
Proof.
  unfold sync_event; destruct (link (ebody g)) as [n|].
  - destruct (notion_map_get items n) as [p|]; [|auto with frame].
    apply keeps_log_bind; auto with frame; intros [s e].
    destruct (truthy s && _); auto with frame.
  - apply keeps_log_bind; auto with frame; intros [s e].
    destruct (truthy s); auto with frame.
    apply keeps_log_bind; auto with frame; intros [k|]; auto with frame.
Qed.

Lemma sync_events_log items evs c w :
  exists L, log (snd (sync_events items evs c w)) = L ++ log w.
Proof.
  revert c w; induction evs as [|g rest IH]; intros c w; simpl; [exists []; reflexivity|].
  pose proof (keeps_log_sync_event items g w) as Hk.
  destruct (sync_event items g w) as [[o|m] w1]; simpl in Hk.
  - destruct o;
      lazymatch goal with
      | |- exists L, log (snd (sync_events items rest ?c' w1)) = _ =>
          destruct (IH c' w1) as [L HL]; exists L; rewrite HL, Hk; reflexivity
      end.
  - exists [ReverseError m]; simpl; rewrite Hk; reflexivity.
Qed.

Lemma sync_calendar_to_notion_log items w :
  exists L, log (snd (sync_calendar_to_notion items w)) = L ++ log w.
Proof.
  unfold sync_calendar_to_notion, cal_list_all; destruct (cal_fails w CListAll).
  - exists [ReverseError "HttpError"]; reflexivity.
  - apply sync_events_log.
Qed.

Lemma link_in_iff ids n : link_in ids n = true <-> In n ids.
Proof.
  unfold link_in; rewrite existsb_exists; split.
  - intros [x [Hx Heq]]; apply Nat.eqb_eq in Heq; subst; exact Hx.
  - intro H; exists n; split; [exact H|apply Nat.eqb_refl].
Qed.

Lemma filter_all_false {A} (p : A -> bool) l :
  (forall x, In x l -> p x = false) -> filter p l = [].
Proof.
  induction l as [|a l IH]; intro H; simpl; [reflexivity|].
  rewrite H by (left; reflexivity); apply IH; intros; apply H; right; assumption.
Qed.

Lemma notion_to_calendar_event_summary p b :
  notion_to_calendar_event p = Ok (Some b) -> summary b = Some (extract_title_from_notion p).
Proof.
  unfold notion_to_calendar_event.
  destruct (date_of p) as [[st en]|]; [|discriminate].
  destruct (String.length st =? 10)%nat.
  - destruct (truthy en); [intro H; injection H as <-; reflexivity|].
    destruct (strptime_ymd st); [|discriminate].
    destruct (next_day d); [|discriminate].
    intro H; injection H as <-; reflexivity.
  - destruct (String.eqb st ""); [discriminate|].
    intro H; injection H as <-; reflexivity.
Qed.

Lemma quiet_pair_same_title y p :
  summary_or_default (ebody y) = extract_title_from_notion p -> quiet_pair y p = true.
Proof.
  intro H; unfold quiet_pair; rewrite H, String.eqb_refl.
  destruct (gcal_event_to_notion_date (ebody y)) as [[s e]|m]; [|reflexivity].
  rewrite andb_false_r; reflexivity.
Qed.

(** The log of a run is the log before it with new lines in front. *)
Lemma main_log_parts w :
  match get_notion_items w with
  | (Ok items, w1) =>
      let '(c, w2) := sync_items items (mkC3 0 0 0) w1 in
      exists L, log (snd (main w)) = L ++ log w2
  | (Raise _, _) => True
  end.
Proof.
  unfold main; destruct (get_notion_items w) as [[items|m] w1]; [|exact I].
  unfold sync_notion_to_calendar.
  destruct (sync_items items (mkC3 0 0 0) w1) as [c w2].
  pose proof (sweep_log (map pid items) w2) as Hs.
  destruct (sweep (map pid items) w2) as [d w3].
  destruct Hs as [L2 [HL2 _]].
  destruct (sync_calendar_to_notion_log items w3) as [L3 HL3].
  destruct (sync_calendar_to_notion items w3) as [c2n w4]; simpl in *.
  exists (L3 ++ L2); rewrite HL3, HL2, app_assoc; reflexivity.
Qed.

(** A run from a stable state: nothing is created or deleted in either
    direction and no Record is updated, but the event of every dated
    Record is updated again. *)
Lemma stable_run w :
  stable w -> log (snd (main w)) = log w ->
  notion_to_calendar (fst (main w))
  = mkC4 0 (length (filter has_event (pages w)))
         (length (filter (fun p => negb (has_event p)) (pages w))) 0
  /\ calendar_to_notion (fst (main w)) = mkRC 0 0 0.
Proof.
  intros [Hcf [Hnf [Hok [Hu [Hnd [Hp100 [Hsz [S2 [S4 [S5 S6]]]]]]]]]] Hlog.
  assert (Hget : get_notion_items w = (Ok (pages w), w))
    by (unfold get_notion_items; rewrite Hnf, firstn_all2 by lia; reflexivity).
  pose proof (main_log_parts w) as Hparts; rewrite Hget in Hparts.
  pose proof (sync_items_counts (pages w) (mkC3 0 0 0) w) as Hcnt.
  destruct (sync_items (pages w) (mkC3 0 0 0) w) as [c w1] eqn:Hsi.
  destruct Hparts as [L HL]; destruct Hcnt as [L1 [HL1 _]].
  assert (Hlog1 : log w1 = log w).
  { rewrite Hlog, HL1, app_assoc in HL; symmetry in HL; apply app_same_nil in HL.
    apply app_eq_nil in HL; destruct HL as [_ ->]; exact HL1. }
  pose proof (sync_items_run (pages w) (mkC3 0 0 0) w Hcf Hok Hu Hnd) as Hrun.
  rewrite Hsi in Hrun; specialize (Hrun Hlog1).
  destruct Hrun as [Hp1 [Hn1 [Hc1 [Hnf1 [_ [Hok1 [Hu1 [Hlen1 [Hall [Hcount [F1 [F2 F3]]]]]]]]]]]].
  set (ids := map pid (pages w)).
  assert (Hlinked : forall it, In it (pages w) -> has_event it = true ->
                    linked_to (pid it) (events w) = true).
  { intros it Hit Hev; destruct (S4 it Hit Hev) as [y [Hy Hly]].
    unfold linked_to; apply existsb_exists; exists y; split; [exact Hy|].
    apply has_link_iff; exact Hly. }
  specialize (Hcount Hlinked).
  assert (Hno : forall x, In x (events w1) -> orphan ids x = false).
  { intros x Hx; unfold orphan.
    destruct (F1 x Hx) as [[Hx0 _]|[it [b [Hit [_ Hb]]]]].
    - destruct (link (ebody x)) as [n|] eqn:Hl; [|reflexivity].
      apply negb_false_iff, link_in_iff; exact (S2 x n Hx0 Hl).
    - rewrite Hb; simpl; apply negb_false_iff, link_in_iff; apply in_map; exact Hit. }
  assert (Hf1 : forall c, cal_fails w1 c = false) by (intro; rewrite Hc1; apply Hcf).
  pose proof (sweep_run ids w1 Hf1 Hok1 Hu1 ltac:(lia)) as Hsw.
  destruct (sweep ids w1) as [d w2] eqn:Hsweep.
  destruct Hsw as [Hd [Hp2 [Hn2 [Hc2 [Hnf2 [Hl2 [Hok2 [Hu2 [Hlen2 Hin2]]]]]]]]].
  rewrite (filter_all_false _ _ Hno) in Hd; simpl in Hd; subst d.
  assert (Hquiet : Forall (fun g => quiet_event (pages w) g = true) (events w2)).
  { apply Forall_forall; intros y Hy; apply Hin2 in Hy; destruct Hy as [Hy _].
    unfold quiet_event.
    destruct (F1 y Hy) as [[Hy0 Hnt]|[it [b [Hit [Hb Hyb]]]]].
    - destruct (link (ebody y)) as [n|] eqn:Hl; [|exact (S6 y Hy0 Hl)].
      pose proof (S2 y n Hy0 Hl) as Hn; apply in_map_iff in Hn; destruct Hn as [p [<- Hp]].
      rewrite (notion_map_get_in (pages w) p Hnd Hp).
      destruct (has_event p) eqn:Hev; [exfalso; exact (Hnt p Hp Hev eq_refl)|].
      destruct (Hall p Hp) as [[b|] Ho]; [rewrite (has_event_some p b Ho) in Hev; discriminate|].
      exact (S5 y p Hy0 Hp Hl Ho).
    - rewrite Hyb; simpl.
      rewrite (notion_map_get_in (pages w) it Hnd Hit).
      apply quiet_pair_same_title; rewrite Hyb; unfold summary_or_default; simpl.
      rewrite (notion_to_calendar_event_summary it b Hb); reflexivity. }
  unfold main; rewrite Hget; unfold sync_notion_to_calendar; rewrite Hsi.
  fold ids; rewrite Hsweep.
  unfold sync_calendar_to_notion, cal_list_all.
  rewrite Hc2, Hc1, Hcf, firstn_all2 by lia.
  pose proof (sync_events_quiet (pages w) (events w2) (mkRC 0 0 0) w2 Hquiet) as Hq.
  destruct (sync_events (pages w) (events w2) (mkRC 0 0 0) w2) as [c2n w3].
  simpl in Hq |- *; subst c2n; rewrite Hcount; split; reflexivity.
Qed.

Lemma written_page_has_event k u t s e ps :
  s <> "" -> notion_to_calendar_event (mkPage k u (write_title_date t s e ps)) <> Ok None.
Proof.
  intro Hs; unfold notion_to_calendar_event, date_of; cbn [props].
  rewrite write_title_date_date; cbv iota beta; unfold date_property.
  destruct (String.length s =? 10)%nat.
  - match goal with |- context [if truthy ?x then _ else _] => destruct (truthy x) end;
      [discriminate|].
    destruct (strptime_ymd s); [|discriminate].
    destruct (next_day d); discriminate.
  - apply String.eqb_neq in Hs; rewrite Hs; discriminate.
Qed.

Lemma update_pages_in n t s e ps p' :
  In p' (map (fun p => if Nat.eqb (pid p) n
                       then mkPage (pid p) (url p) (write_title_date t s e (props p))
                       else p) ps) ->
  (In p' ps /\ pid p' <> n)
  \/ (pid p' = n /\ exists p, In p ps /\ p' = mkPage (pid p) (url p) (write_title_date t s e (props p))).
Proof.
  intro H; apply in_map_iff in H; destruct H as [p [<- Hp]].
  destruct (Nat.eqb (pid p) n) eqn:E.
  - right; apply Nat.eqb_eq in E; split; [exact E|exists p; auto].
  - left; split; [exact Hp|apply Nat.eqb_neq; exact E].
Qed.

Lemma update_pages_pids n t s e ps :
  map pid (map (fun p => if Nat.eqb (pid p) n
                         then mkPage (pid p) (url p) (write_title_date t s e (props p))
                         else p) ps) = map pid ps.
Proof. rewrite map_map; apply map_ext; intro p; destruct (Nat.eqb (pid p) n); reflexivity. Qed.

Lemma update_events_in i b l x :
  In x (map (fun e => if Nat.eqb (eid e) i then mkEvent i b else e) l) ->
  (In x l /\ eid x <> i) \/ x = mkEvent i b.
Proof.
  intro H; apply in_map_iff in H; destruct H as [y [<- Hy]].
  destruct (Nat.eqb (eid y) i) eqn:E; [right; reflexivity|].
  left; split; [exact Hy|apply Nat.eqb_neq; exact E].
Qed.

Lemma update_events_keep i b l x :
  In x l -> eid x <> i -> In x (map (fun e => if Nat.eqb (eid e) i then mkEvent i b else e) l).
Proof.
  intros Hx Hne; apply in_map_iff; exists x; split; [|exact Hx].
  apply Nat.eqb_neq in Hne; rewrite Hne; reflexivity.
Qed.

Lemma truthy_some s : truthy s = true -> match s with Some x => x | None => "" end <> "".
Proof.
  destruct s as [x|]; simpl; [|discriminate].
  intros H Hx; subst x; discriminate.
Qed.

Section ReversePass.

(** The Records of the run and the events listed by the reverse pass. *)
Variable items : list page.
Variable L : list event.
Hypothesis items_nodup : NoDup (map pid items).
Hypothesis L_nodup : NoDup (map eid L).
Hypothesis L_linked : forall y n, In y L -> link (ebody y) = Some n -> In n (map pid items).

(** One event of the reverse pass. *)
Lemma rinv_step g R w o w' :
  rinv items L (g :: R) w -> sync_event items g w = (Ok o, w') -> rinv items L R w'.
Proof using items_nodup L_nodup L_linked.
  intros (Hcf & Hnf & Hok & Heids & Hu & [P HP] & HR & Hnd & Hlt & Hlk & Hhe & Hqp & Hqn
          & Hnone & Hids & Hcount) Hs.
  assert (Hg : In g (events w)) by (apply HR; left; reflexivity).
  assert (HgL : In g L) by (rewrite HP; apply in_or_app; right; left; reflexivity).
  assert (HndR : NoDup (map eid (g :: R))).
  { pose proof L_nodup as H; rewrite HP, map_app in H; exact (NoDup_app_remove_l _ _ H). }
  apply NoDup_cons_iff in HndR; destruct HndR as [HgR HndR].
  assert (HP' : exists P', L = P' ++ R)
    by (exists (P ++ [g]); rewrite HP, <- app_assoc; reflexivity).
  assert (HRg : forall y, In y R -> eid y <> eid g)
    by (intros y Hy Heq; apply HgR; rewrite <- Heq; apply in_map; exact Hy).
  unfold sync_event, bind, lift, ret, update_notion_page, create_notion_page, cal_update,
    cal_delete in Hs.
  destruct (link (ebody g)) as [n|] eqn:Hlg.
  - (* a linked event: its Record is in the map *)
    pose proof (L_linked g n HgL Hlg) as Hn.
    apply in_map_iff in Hn; destruct Hn as [p0 [Hp0n Hp0]]; subst n.
    rewrite (notion_map_get_in items p0 items_nodup Hp0) in Hs.
    assert (Hng : native g = false) by (unfold native, linked; rewrite Hlg; reflexivity).
    cbn [filter] in Hcount; rewrite Hng in Hcount.
    destruct (gcal_event_to_notion_date (ebody g)) as [[s e]|m] eqn:Hd; [|discriminate].
    cbv beta iota zeta in Hs.
    destruct (truthy s && negb (String.eqb (summary_or_default (ebody g))
                                  (extract_title_from_notion p0))) eqn:Hc.
    + (* the Record is rewritten *)
      rewrite Hnf in Hs.
      assert (Hex : existsb (fun p => Nat.eqb (pid p) (pid p0)) (pages w) = true).
      { pose proof (Hids (pid p0) (in_map pid items p0 Hp0)) as H.
        apply in_map_iff in H; destruct H as [q [Hq Hqin]].
        apply existsb_exists; exists q; split; [exact Hqin|rewrite Hq; apply Nat.eqb_refl]. }
      rewrite Hex in Hs; cbv beta iota zeta in Hs; injection Hs as _ <-.
      apply andb_true_iff in Hc; destruct Hc as [Hts _].
      pose proof (truthy_some s Hts) as Hs'.
      unfold rinv, set_pages; cbn [pages events next_pid next_eid cal_fails notion_fails log].
      rewrite update_pages_pids.
      split; [exact Hcf|]; split; [exact Hnf|]; split; [exact Hok|]; split; [exact Heids|].
      split; [exact Hu|]; split; [exact HP'|]; split; [intros y Hy; apply HR; right; exact Hy|].
      split; [exact Hnd|].
      split.
      { apply Forall_forall; intros p Hp; rewrite Forall_forall in Hlt.
        destruct (update_pages_in _ _ _ _ _ p Hp) as [[Hp1 _]|[_ [q [Hq ->]]]];
          [exact (Hlt p Hp1)|exact (Hlt q Hq)]. }
      split; [exact Hlk|].
      split.
      { intros p Hp Hev.
        destruct (update_pages_in _ _ _ _ _ p Hp) as [[Hp1 _]|[Hpid _]];
          [exact (Hhe p Hp1 Hev)|exists g; split; [exact Hg|rewrite Hpid; exact Hlg]]. }
      split.
      { intros y p Hy HyR Hp Hly Hpn.
        destruct (update_pages_in _ _ _ _ _ p Hp) as [[Hp1 Hpn1]|[_ [q [Hq ->]]]].
        - apply (Hqp y p Hy); [|exact Hp1|exact Hly|exact Hpn].
          intros [<-|HyR']; [|contradiction].
          rewrite Hlg in Hly; injection Hly as Heq; exact (Hpn1 (eq_sym Heq)).
        - exfalso; exact (written_page_has_event _ _ _ _ _ _ Hs' Hpn). }
      split.
      { intros y Hy HyR Hly; apply (Hqn y Hy); [|exact Hly].
        intros [<-|HyR']; [congruence|contradiction]. }
      split.
      { intros p Hp Hpn.
        destruct (update_pages_in _ _ _ _ _ p Hp) as [[Hp1 _]|[_ [q [Hq ->]]]];
          [exact (Hnone p Hp1 Hpn)|exfalso; exact (written_page_has_event _ _ _ _ _ _ Hs' Hpn)]. }
      split; [exact Hids|].
      rewrite length_map; exact Hcount.
    + (* nothing to do: the titles agree or the start is empty *)
      injection Hs as _ <-.
      split; [exact Hcf|]; split; [exact Hnf|]; split; [exact Hok|]; split; [exact Heids|].
      split; [exact Hu|]; split; [exact HP'|]; split; [intros y Hy; apply HR; right; exact Hy|].
      split; [exact Hnd|]; split; [exact Hlt|]; split; [exact Hlk|]; split; [exact Hhe|].
      split.
      { intros y p Hy HyR Hp Hly Hpn.
        destruct (Nat.eq_dec (eid y) (eid g)) as [Heq|Hne].
        - pose proof (nodup_map_inj eid (events w) y g (proj1 Hok) Hy Hg Heq) as Hyg; subst y.
          rewrite Hlg in Hly; injection Hly as Hpp.
          pose proof (Hnone p Hp Hpn) as Hpi.
          rewrite (nodup_map_inj pid items p p0 items_nodup Hpi Hp0 (eq_sym Hpp)).
          unfold quiet_pair; rewrite Hd, Hc; reflexivity.
        - apply (Hqp y p Hy); [|exact Hp|exact Hly|exact Hpn].
          intros [<-|HyR']; [exact (Hne eq_refl)|contradiction]. }
      split.
      { intros y Hy HyR Hly; apply (Hqn y Hy); [|exact Hly].
        intros [<-|HyR']; [congruence|contradiction]. }
      split; [exact Hnone|]; split; [exact Hids|exact Hcount].
  - (* an event created in the calendar *)
    assert (Hng : native g = true) by (unfold native, linked; rewrite Hlg; reflexivity).
    cbn [filter] in Hcount; rewrite Hng in Hcount; cbn [length] in Hcount.
    destruct (gcal_event_to_notion_date (ebody g)) as [[s e]|m] eqn:Hd; [|discriminate].
    cbv beta iota zeta in Hs.
    destruct (truthy s) eqn:Ht.
    + (* a Record is created and the event linked to it *)
      rewrite Hnf in Hs; cbv beta iota zeta in Hs.
      cbn [set_pages cal_fails events pages next_pid next_eid notion_fails log] in Hs.
      rewrite Hcf in Hs.
      assert (Hex : existsb (fun e => Nat.eqb (eid e) (eid g)) (events w) = true)
        by (apply existsb_exists; exists g; split; [exact Hg|apply Nat.eqb_refl]).
      rewrite Hex in Hs; cbv beta iota zeta in Hs; injection Hs as _ <-.
      pose proof (truthy_some s Ht) as Hs'.
      assert (Hfresh : forall x, In x (events w) -> link (ebody x) <> Some (next_pid w)).
      { intros x Hx Hl; pose proof (Hlk x _ Hx Hl) as H.
        apply in_map_iff in H; destruct H as [q [Hq Hqin]].
        rewrite Forall_forall in Hlt; specialize (Hlt q Hqin); lia. }
      assert (Hsmall : forall p, In p (pages w) -> pid p <> next_pid w).
      { intros p Hp Heq; rewrite Forall_forall in Hlt; specialize (Hlt p Hp); lia. }
      unfold rinv, set_pages, set_events;
        cbn [pages events next_pid next_eid cal_fails notion_fails log].
      rewrite update_events_eids.
      split; [exact Hcf|]; split; [exact Hnf|].
      split.
      { unfold ev_ok; cbn [events next_eid]; rewrite update_events_eids.
        split; [exact (proj1 Hok)|].
        apply Forall_forall; intros x Hx; destruct Hok as [_ Hfr]; rewrite Forall_forall in Hfr.
        destruct (update_events_in _ _ _ x Hx) as [[Hx1 _]| ->]; [exact (Hfr x Hx1)|].
        exact (Hfr g Hg). }
      split; [exact Heids|].
      split.
      { intros x y n' Hx Hy Hlx Hly.
        destruct (update_events_in _ _ _ x Hx) as [[Hx1 _]| ->],
          (update_events_in _ _ _ y Hy) as [[Hy1 _]| ->].
        - exact (Hu x y n' Hx1 Hy1 Hlx Hly).
        - simpl in Hly; injection Hly as <-; exfalso; exact (Hfresh x Hx1 Hlx).
        - simpl in Hlx; injection Hlx as <-; exfalso; exact (Hfresh y Hy1 Hly).
        - reflexivity. }
      split; [exact HP'|].
      split; [intros y Hy; apply update_events_keep; [apply HR; right; exact Hy|exact (HRg y Hy)]|].
      split.
      { rewrite map_app; apply NoDup_app; [exact Hnd|repeat constructor; simpl; tauto|].
        intros a Ha [Heq|[]]; simpl in Heq; subst a.
        apply in_map_iff in Ha; destruct Ha as [q [Hq Hqin]]; exact (Hsmall q Hqin Hq). }
      split.
      { apply Forall_app; split; [|constructor; [simpl; lia|constructor]].
        eapply Forall_impl; [|exact Hlt]; intros a Ha; cbv beta in Ha; lia. }
      split.
      { intros y n' Hy Hly; rewrite map_app; apply in_or_app.
        destruct (update_events_in _ _ _ y Hy) as [[Hy1 _]| ->];
          [left; exact (Hlk y n' Hy1 Hly)|right; simpl in Hly; injection Hly as <-; left; reflexivity]. }
      split.
      { intros p Hp Hev; apply in_app_or in Hp; destruct Hp as [Hp1|[<-|[]]].
        - destruct (Hhe p Hp1 Hev) as [y [Hy Hly]]; exists y; split; [|exact Hly].
          apply update_events_keep; [exact Hy|intro Heq].
          rewrite (nodup_map_inj eid (events w) y g (proj1 Hok) Hy Hg Heq) in Hly; congruence.
        - eexists; split; [apply in_map_iff; exists g; split; [cbv beta; rewrite Nat.eqb_refl; reflexivity|exact Hg]|].
          reflexivity. }
      split.
      { intros y p Hy HyR Hp Hly Hpn; apply in_app_or in Hp; destruct Hp as [Hp1|[<-|[]]].
        - destruct (update_events_in _ _ _ y Hy) as [[Hy1 Hne]| ->].
          + apply (Hqp y p Hy1); [|exact Hp1|exact Hly|exact Hpn].
            intros [<-|HyR']; [exact (Hne eq_refl)|contradiction].
          + simpl in Hly; injection Hly as Heq; exfalso; exact (Hsmall p Hp1 (eq_sym Heq)).
        - exfalso; exact (written_page_has_event _ _ _ _ _ _ Hs' Hpn). }
      split.
      { intros y Hy HyR Hly.
        destruct (update_events_in _ _ _ y Hy) as [[Hy1 Hne]| ->]; [|discriminate].
        apply (Hqn y Hy1); [|exact Hly].
        intros [<-|HyR']; [exact (Hne eq_refl)|contradiction]. }
      split.
      { intros p Hp Hpn; apply in_app_or in Hp; destruct Hp as [Hp1|[<-|[]]];
          [exact (Hnone p Hp1 Hpn)|exfalso; exact (written_page_has_event _ _ _ _ _ _ Hs' Hpn)]. }
      split; [intros n' Hn'; rewrite map_app; apply in_or_app; left; exact (Hids n' Hn')|].
      rewrite length_app; simpl; lia.
    + (* no start: nothing to do *)
      injection Hs as _ <-.
      split; [exact Hcf|]; split; [exact Hnf|]; split; [exact Hok|]; split; [exact Heids|].
      split; [exact Hu|]; split; [exact HP'|]; split; [intros y Hy; apply HR; right; exact Hy|].
      split; [exact Hnd|]; split; [exact Hlt|]; split; [exact Hlk|]; split; [exact Hhe|].
      split.
      { intros y p Hy HyR Hp Hly Hpn; apply (Hqp y p Hy); [|exact Hp|exact Hly|exact Hpn].
        intros [<-|HyR']; [congruence|contradiction]. }
      split.
      { intros y Hy HyR Hly.
        destruct (Nat.eq_dec (eid y) (eid g)) as [Heq|Hne].
        - pose proof (nodup_map_inj eid (events w) y g (proj1 Hok) Hy Hg Heq) as Hyg; subst y.
          unfold quiet_native; rewrite Hd, Ht; reflexivity.
        - apply (Hqn y Hy); [|exact Hly].
          intros [<-|HyR']; [exact (Hne eq_refl)|contradiction]. }
      split; [exact Hnone|]; split; [exact Hids|lia].
Qed.

(** The whole reverse pass, when it prints no error line. *)
Lemma sync_events_run R c w :
  rinv items L R w -> log (snd (sync_events items R c w)) = log w ->
  rinv items L [] (snd (sync_events items R c w)).
Proof using items_nodup L_nodup L_linked.
  revert c w; induction R as [|g R IH]; intros c w Hinv Hlog; simpl in *; [exact Hinv|].
  pose proof (keeps_log_sync_event items g w) as Hk.
  destruct (sync_event items g w) as [[o|m] w1] eqn:Hs; simpl in Hk.
  - pose proof (rinv_step g R w o w1 Hinv Hs) as Hinv1.
    destruct o; apply IH; auto; rewrite Hk; exact Hlog.
  - exfalso; simpl in Hlog; rewrite Hk in Hlog.
    apply (f_equal (@length logline)) in Hlog; simpl in Hlog; lia.
Qed.

End ReversePass.

(** After a run that prints no error line, from stores where no call
    fails, ids are fresh and distinct and every listing holds everything,
    the stores are stable. *)
Lemma first_run_stable w0 :
  (forall c, cal_fails w0 c = false) -> (forall c, notion_fails w0 c = false) ->
  ev_ok w0 -> unique_links (events w0) -> NoDup (map pid (pages w0)) ->
  Forall (fun p => (pid p < next_pid w0)%nat) (pages w0) ->
  (length (pages w0) + length (events w0) <= 100)%nat ->
  log (snd (main w0)) = log w0 -> stable (snd (main w0)).
Proof.
  intros Hcf Hnf Hok Hu Hnd Hlt Hsz Hlog.
  assert (Hget : get_notion_items w0 = (Ok (pages w0), w0))
    by (unfold get_notion_items; rewrite Hnf, firstn_all2 by lia; reflexivity).
  pose proof (main_log_parts w0) as Hparts; rewrite Hget in Hparts.
  pose proof (sync_items_counts (pages w0) (mkC3 0 0 0) w0) as Hcnt.
  destruct (sync_items (pages w0) (mkC3 0 0 0) w0) as [c w1] eqn:Hsi.
  destruct Hparts as [L HL]; destruct Hcnt as [L1 [HL1 _]].
  assert (Hlog1 : log w1 = log w0).
  { rewrite Hlog, HL1, app_assoc in HL; symmetry in HL; apply app_same_nil in HL.
    apply app_eq_nil in HL; destruct HL as [_ ->]; exact HL1. }
  pose proof (sync_items_run (pages w0) (mkC3 0 0 0) w0 Hcf Hok Hu Hnd) as Hrun.
  rewrite Hsi in Hrun; specialize (Hrun Hlog1).
  destruct Hrun as [Hp1 [Hn1 [Hc1 [Hnf1 [_ [Hok1 [Hu1 [Hlen1 [Hall [_ [F1 [F2 F3]]]]]]]]]]]].
  set (ids := map pid (pages w0)).
  assert (Hf1 : forall c, cal_fails w1 c = false) by (intro; rewrite Hc1; apply Hcf).
  pose proof (sweep_run ids w1 Hf1 Hok1 Hu1 ltac:(lia)) as Hsw.
  destruct (sweep ids w1) as [d w2] eqn:Hsweep.
  destruct Hsw as [_ [Hp2 [Hn2 [Hc2 [Hnf2 [Hl2 [Hok2 [Hu2 [Hlen2 Hin2]]]]]]]]].
  assert (Hmain : snd (main w0) = snd (sync_events (pages w0) (events w2) (mkRC 0 0 0) w2)).
  { unfold main; rewrite Hget; unfold sync_notion_to_calendar; rewrite Hsi.
    fold ids; rewrite Hsweep.
    unfold sync_calendar_to_notion, cal_list_all.
    rewrite Hc2, Hc1, Hcf, firstn_all2 by lia.
    destruct (sync_events (pages w0) (events w2) (mkRC 0 0 0) w2); reflexivity. }
  rewrite Hmain in Hlog |- *.
  assert (Hlinked : forall y n, In y (events w2) -> link (ebody y) = Some n -> In n ids).
  { intros y n Hy Hly; apply Hin2 in Hy; destruct Hy as [_ Ho].
    unfold orphan in Ho; rewrite Hly in Ho; apply negb_false_iff, link_in_iff in Ho; exact Ho. }
  assert (Hinv : rinv (pages w0) (events w2) (events w2) w2).
  { split; [intro; rewrite Hc2, Hc1; apply Hcf|].
    split; [intro; rewrite Hnf2, Hnf1; apply Hnf|].
    split; [exact Hok2|]; split; [reflexivity|]; split; [exact Hu2|].
    split; [exists []; reflexivity|]; split; [intros y Hy; exact Hy|].
    rewrite Hp2, Hp1, Hn2, Hn1.
    split; [exact Hnd|]; split; [exact Hlt|]; split; [exact Hlinked|].
    split.
    { intros p Hp Hev; destruct (F2 p Hp Hev) as [x [Hx Hlx]].
      exists x; split; [|exact Hlx]. apply Hin2; split; [exact Hx|].
      unfold orphan; rewrite Hlx; apply negb_false_iff, link_in_iff, in_map; exact Hp. }
    split; [intros y p Hy HyR; contradiction|].
    split; [intros y Hy HyR; contradiction|].
    split; [intros p Hp _; exact Hp|].
    split; [intros n Hn; exact Hn|lia]. }
  rewrite <- Hlog1, <- Hl2 in Hlog.
  pose proof (sync_events_run (pages w0) (events w2) Hnd (proj1 Hok2) Hlinked
                (events w2) (mkRC 0 0 0) w2 Hinv Hlog) as Hfin.
  set (wf := snd (sync_events (pages w0) (events w2) (mkRC 0 0 0) w2)) in *.
  destruct Hfin as (Hcf' & Hnf' & Hokf & Heids & Huf & _ & _ & Hndf & _ & Hlkf & Hhef & Hqpf
                    & Hqnf & _ & _ & Hcountf).
  (* the unlinked events of the calendar after the forward pass were there before *)
  assert (Hnat : (length (filter native (events w2)) <= length (events w0))%nat).
  { apply NoDup_incl_length.
    - apply (NoDup_map_inv eid), nodup_map_filter, (proj1 Hok2).
    - intros x Hx; apply filter_In in Hx; destruct Hx as [Hx Hnx].
      apply Hin2 in Hx; destruct Hx as [Hx _].
      destruct (F1 x Hx) as [[Hx0 _]|[it [b [_ [_ Hb]]]]]; [exact Hx0|].
      unfold native, linked in Hnx; rewrite Hb in Hnx; discriminate. }
  assert (Hevf : length (events wf) = length (events w2)).
  { rewrite <- (length_map eid (events wf)), Heids, length_map; reflexivity. }
  cbn [length filter] in Hcountf.
  split; [exact Hcf'|]; split; [exact Hnf'|]; split; [exact Hokf|]; split; [exact Huf|].
  split; [exact Hndf|]; split; [lia|]; split; [lia|].
  split; [exact Hlkf|]; split; [exact Hhef|].
  split; [intros y p Hy; apply Hqpf; [exact Hy|intros []]|].
  intros y Hy; apply Hqnf; [exact Hy|intros []].
Qed.

(** C1 (amended): a run from stores where no API call fails, event ids
    are distinct and below the next id, no two events carry the same link,
    Record ids are distinct and below the next id, and Records and events
    number at most 100 together, followed by a second run, with no error
    line printed by either run: the second run creates and deletes nothing
    in the forward direction and reports 0 for all three reverse counters,
    but its forward [updated] counter is the number of Records that
    translate to an event (the event of each of them is updated again),
    and its [skipped] counter is the number of the other Records. *)
Theorem C1_second_run_counts w0
  (Hcf : forall c, cal_fails w0 c = false) (Hnf : forall c, notion_fails w0 c = false)
  (Hok : ev_ok w0) (Hu : unique_links (events w0)) (Hnd : NoDup (map pid (pages w0)))
  (Hlt : Forall (fun p => (pid p < next_pid w0)%nat) (pages w0))
  (Hsz : (length (pages w0) + length (events w0) <= 100)%nat)
  (Hlog1 : log (snd (main w0)) = log w0)
  (Hlog2 : log (snd (main (snd (main w0)))) = log (snd (main w0))) :
  fst (main (snd (main w0)))
  = mkResult (mkC4 0 (length (filter has_event (pages (snd (main w0)))))
                   (length (filter (fun p => negb (has_event p)) (pages (snd (main w0))))) 0)
             (mkRC 0 0 0).
Proof.
  pose proof (first_run_stable w0 Hcf Hnf Hok Hu Hnd Hlt Hsz Hlog1) as Hst.
  destruct (stable_run (snd (main w0)) Hst Hlog2) as [H1 H2].
  destruct (fst (main (snd (main w0)))) as [n2c c2n]; simpl in H1, H2; subst; reflexivity.
Qed.

Lemma C1_witness :
  ((forall c, cal_fails two_stores c = false) /\ (forall c, notion_fails two_stores c = false)
   /\ ev_ok two_stores /\ unique_links (events two_stores) /\ NoDup (map pid (pages two_stores))
   /\ Forall (fun p => (pid p < next_pid two_stores)%nat) (pages two_stores)
   /\ (length (pages two_stores) + length (events two_stores) <= 100)%nat
   /\ log (snd (main two_stores)) = log two_stores
   /\ log (snd (main (snd (main two_stores)))) = log (snd (main two_stores)))
  /\ fst (main (snd (main two_stores)))
     = mkResult (mkC4 0 (length (filter has_event (pages (snd (main two_stores)))))
                      (length (filter (fun p => negb (has_event p))
                                 (pages (snd (main two_stores))))) 0)
                (mkRC 0 0 0)
  /\ fst (main (snd (main two_stores))) = mkResult (mkC4 0 2 1 0) (mkRC 0 0 0).
Proof.
  assert (Hcf : forall c, cal_fails two_stores c = false) by (intro c; reflexivity).
  assert (Hnf : forall c, notion_fails two_stores c = false) by (intro c; reflexivity).
  assert (Hok : ev_ok two_stores).
  { split; simpl.
    - repeat constructor; simpl; lia.
    - repeat constructor; simpl; lia. }
  assert (Hu : unique_links (events two_stores)).
  { intros x y n Hx Hy; simpl in Hx, Hy.
    destruct Hx as [<-|[<-|[]]], Hy as [<-|[<-|[]]]; simpl; intros; congruence. }
  assert (Hnd : NoDup (map pid (pages two_stores))) by (simpl; repeat constructor; simpl; lia).
  assert (Hlt : Forall (fun p => (pid p < next_pid two_stores)%nat) (pages two_stores))
    by (simpl; repeat constructor; simpl; lia).
  assert (Hsz : (length (pages two_stores) + length (events two_stores) <= 100)%nat)
    by (simpl; lia).
  assert (Hlog1 : log (snd (main two_stores)) = log two_stores) by (vm_compute; reflexivity).
  assert (Hlog2 : log (snd (main (snd (main two_stores)))) = log (snd (main two_stores)))
    by (vm_compute; reflexivity).
  split; [exact (conj Hcf (conj Hnf (conj Hok (conj Hu (conj Hnd (conj Hlt (conj Hsz (conj Hlog1 Hlog2))))))))|].
  split; [exact (C1_second_run_counts two_stores Hcf Hnf Hok Hu Hnd Hlt Hsz Hlog1 Hlog2)|].
  vm_compute; reflexivity.
Defined.

(* ================================================================== *)
(** * Further properties of the code *)

(** ** Helpers *)

Lemma title_text_nonempty v t : title_text v = Some t -> t <> "".
Proof.
  destruct v as [[|t' r]| |]; simpl; try discriminate.
  destruct (String.eqb_spec t' "") as [|Hne]; [discriminate|].
  intros H; injection H as <-; exact Hne.
Qed.

Lemma first_title_in l t :
  first_title l = Some t -> exists k v, In (k, v) l /\ title_text v = Some t.
Proof.
  induction l as [|[k v] l IH]; simpl; [discriminate|].
  destruct (title_text v) eqn:Hv.
  - intros H; injection H as <-. exists k, v; auto.
  - intros H; destruct (IH H) as (k' & v' & Hin & Ht); exists k', v'; auto.
Qed.

Lemma lookup_in {A} k (l : list (string * A)) v : lookup k l = Some v -> In (k, v) l.
Proof.
  induction l as [|[k' v'] l IH]; simpl; [discriminate|].
  destruct (String.eqb_spec k k') as [->|]; [intros H; injection H as <-; auto|auto].
Qed.





(** The fields of a translated event. *)
Lemma ntc_fields p s e b :
  date_of p = Some (s, e) -> notion_to_calendar_event p = Ok (Some b) ->
  summary b = Some (extract_title_from_notion p)
  /\ description b = Some ("Synced from Notion: " ++ url p)%string
  /\ link b = None
  /\ exists en, (String.length s = 10%nat /\ gstart b = GDate s /\ gend b = GDate en)
               \/ (String.length s <> 10%nat /\ s <> "" /\ gstart b = GDateTime s
                   /\ gend b = GDateTime en).
Proof.
  intros Hd. unfold notion_to_calendar_event. rewrite Hd. cbv zeta.
  destruct (Nat.eqb_spec (String.length s) 10) as [Hl|Hl].
  - destruct (truthy e).
    + intros H; injection H as <-. simpl.
      refine (conj eq_refl (conj eq_refl (conj eq_refl _))).
      eexists; left; split; [exact Hl|split; reflexivity].
    + destruct (strptime_ymd s) as [d|]; [|discriminate].
      destruct (next_day d) as [d'|]; [|discriminate].
      intros H; injection H as <-. simpl.
      refine (conj eq_refl (conj eq_refl (conj eq_refl _))).
      eexists; left; split; [exact Hl|split; reflexivity].
  - destruct (String.eqb_spec s "") as [|Hs]; [discriminate|].
    intros H; injection H as <-. simpl.
    refine (conj eq_refl (conj eq_refl (conj eq_refl _))).
    eexists; right; split; [exact Hl|split; [exact Hs|split; reflexivity]].
Qed.

(** ** Batches *)

Lemma slices_cover {A} (l : list A) n fuel i :
  (0 < n)%nat -> (length l - i <= fuel)%nat ->
  concat (map (fun j => slice l j (j + n)) (range_step fuel i (length l) n)) = skipn i l.
Proof.
  intros Hn. revert i. induction fuel as [|f IH]; intros i Hf; simpl.
  - symmetry. apply skipn_all2. lia.
  - destruct (Nat.ltb_spec i (length l)).
    + simpl. rewrite IH by lia. unfold slice. replace (i + n - i)%nat with n by lia.
      rewrite (Nat.add_comm i n), <- skipn_skipn. apply firstn_skipn.
    + symmetry. apply skipn_all2. lia.
Qed.

Lemma ceil_div_step a n :
  (0 < n)%nat -> (0 < a)%nat -> ((a + n - 1) / n = S ((a - n + n - 1) / n))%nat.
Proof.
  intros Hn Ha. destruct (le_lt_dec n a).
  - replace (a + n - 1)%nat with (a - n + n - 1 + 1 * n)%nat by lia.
    rewrite Nat.div_add by lia. lia.
  - replace (a - n)%nat with 0%nat by lia.
    rewrite (Nat.div_small (0 + n - 1)) by lia.
    symmetry. apply Nat.div_unique with (r := (a - 1)%nat); lia.
Qed.

Lemma range_step_length n fuel i stop :
  (0 < n)%nat -> (stop - i <= fuel)%nat ->
  length (range_step fuel i stop n) = ((stop - i + n - 1) / n)%nat.
Proof.
  intros Hn. revert i. induction fuel as [|f IH]; intros i Hf; simpl.
  - replace (stop - i)%nat with 0%nat by lia. symmetry. apply Nat.div_small. lia.
  - destruct (Nat.ltb_spec i stop).
    + simpl. rewrite IH by lia. rewrite (ceil_div_step (stop - i) n) by lia.
      do 3 f_equal. lia.
    + replace (stop - i)%nat with 0%nat by lia. symmetry. apply Nat.div_small. lia.
Qed.

Lemma range_step_bound fuel i stop n j : In j (range_step fuel i stop n) -> (j < stop)%nat.
Proof.
  revert i. induction fuel as [|f IH]; intros i; simpl; [tauto|].
  destruct (Nat.ltb_spec i stop); simpl; [|tauto].
  intros [<-|Hj]; [assumption|exact (IH _ Hj)].
Qed.

(** ** [sync_items] runs item after item *)

Lemma sync_items_app l1 l2 c w :
  sync_items (l1 ++ l2) c w = let '(c', w') := sync_items l1 c w in sync_items l2 c' w'.
Proof.
  revert c w. induction l1 as [|it l1 IH]; intros c w; simpl; [reflexivity|].
  destruct (sync_item it w) as [[o|m] w1]; apply IH.
Qed.

Lemma sync_batches_concat bs c w : sync_batches bs c w = sync_items (concat bs) c w.
Proof.
  revert c w. induction bs as [|b bs IH]; intros c w; simpl; [reflexivity|].
  rewrite sync_items_app. destruct (sync_items b c w) as [c' w']. apply IH.
Qed.


(** ** The configuration *)

(** [validate_env] reports a setting missing exactly when it is unset
    or empty; [CALENDAR_ID] falls back to ['primary'], so it is reported
    only when it is set to the empty string. *)
Theorem validate_env_missing (e : env) :
  (In "NOTION_TOKEN" (validate_env (config_of e)) <-> truthy (e "NOTION_TOKEN") = false)
  /\ (In "NOTION_DB_ID" (validate_env (config_of e)) <-> truthy (e "NOTION_DB_ID") = false)
  /\ (In "GOOGLE_CREDENTIALS" (validate_env (config_of e))
      <-> truthy (e "GOOGLE_CREDENTIALS") = false)
  /\ (In "CALENDAR_ID" (validate_env (config_of e)) <-> e "CALENDAR_ID" = Some "").
Proof.
  unfold validate_env, config_of. cbn [NOTION_TOKEN NOTION_DB_ID GOOGLE_CREDENTIALS_JSON CALENDAR_ID].
  destruct (e "CALENDAR_ID") as [v|].
  - assert (Hv : truthy (Some v) = false <-> Some v = Some "").
    { unfold truthy. destruct (String.eqb_spec v "") as [->|Hne]; split; try reflexivity.
      - discriminate.
      - intros H; injection H as ->; contradiction. }
    destruct (truthy (e "NOTION_TOKEN")), (truthy (e "NOTION_DB_ID")),
      (truthy (e "GOOGLE_CREDENTIALS")), (truthy (Some v));
      simpl; rewrite <- Hv; intuition (try discriminate; try congruence).
  - destruct (truthy (e "NOTION_TOKEN")), (truthy (e "NOTION_DB_ID")),
      (truthy (e "GOOGLE_CREDENTIALS"));
      simpl; intuition (try discriminate; try congruence).
Qed.

(** ** Batches of the forward pass *)

(** Cutting a list into batches of [n > 0] items: the batches, joined,
    give back the list in its order; there are
    [(len + n - 1) // n] of them (the code's [total_batches]); each
    holds between 1 and [n] items. *)
Theorem batches_partition {A} (n : nat) (l : list A) :
  (0 < n)%nat ->
  concat (batches n l) = l
  /\ length (batches n l) = ((length l + n - 1) / n)%nat
  /\ Forall (fun b => (0 < length b <= n)%nat) (batches n l).
Proof.
  intros Hn. unfold batches, py_range. split; [|split].
  - rewrite slices_cover by lia. reflexivity.
  - rewrite length_map, range_step_length by lia. rewrite Nat.sub_0_r. reflexivity.
  - apply Forall_forall. intros b Hb. apply in_map_iff in Hb as (j & <- & Hj).
    apply range_step_bound in Hj. unfold slice. rewrite length_firstn, length_skipn. lia.
Qed.

Lemma batches_partition_witness :
  (0 < 10)%nat
  /\ (concat (batches 10 (seq 0 25)) = seq 0 25
      /\ length (batches 10 (seq 0 25)) = ((length (seq 0 25) + 10 - 1) / 10)%nat
      /\ Forall (fun b => (0 < length b <= 10)%nat) (batches 10 (seq 0 25))).
Proof. split; [lia|]. apply (batches_partition 10 (seq 0 25)). lia. Defined.

(** The create/update loop as written, over the batches of 10 Records,
    processes the Records one by one in the order of the query, exactly
    as one loop over all of them. *)
Theorem sync_batches_in_order items c w :
  sync_batches (batches 10 items) c w = sync_items items c w.
Proof.
  rewrite sync_batches_concat. unfold batches, py_range.
  rewrite slices_cover by lia. reflexivity.
Qed.

(** ** [extract_title_from_notion] *)

(** The title given to a Record is never empty: it is the default
    ["Untitled Event"] or the first text of one of the Record's title
    properties. *)
Theorem extract_title_from_notion_spec p :
  extract_title_from_notion p <> ""
  /\ (extract_title_from_notion p = "Untitled Event"
      \/ exists k v, In (k, v) (props p) /\ title_text v = Some (extract_title_from_notion p)).
Proof.
  unfold extract_title_from_notion.
  assert (Hsrc : forall t, match lookup "Project name" (props p) with
                           | Some v => title_text v | None => None end = Some t ->
                           exists k v, In (k, v) (props p) /\ title_text v = Some t).
  { intros t. destruct (lookup "Project name" (props p)) as [v|] eqn:Hl; [|discriminate].
    intros Ht. exists "Project name", v. split; [apply lookup_in; exact Hl|exact Ht]. }
  destruct (match lookup "Project name" (props p) with
            | Some v => title_text v | None => None end) as [t|] eqn:Hm.
  - destruct (Hsrc t eq_refl) as (k & v & Hin & Ht).
    split; [exact (title_text_nonempty v t Ht)|right; exists k, v; auto].
  - destruct (first_title (props p)) as [t|] eqn:Hf.
    + destruct (first_title_in _ _ Hf) as (k & v & Hin & Ht).
      split; [exact (title_text_nonempty v t Ht)|right; exists k, v; auto].
    + split; [discriminate|left; reflexivity].
Qed.

(** ** [notion_to_calendar_event] *)

(** A Record is skipped (the function returns [None]) exactly when its
    ['Date'] is missing, null, or has an empty start. *)
Theorem notion_to_calendar_event_skip p :
  notion_to_calendar_event p = Ok None
  <-> date_of p = None \/ exists e, date_of p = Some ("", e).
Proof.
  unfold notion_to_calendar_event. cbv zeta.
  destruct (date_of p) as [[s e]|].
  - destruct (Nat.eqb_spec (String.length s) 10) as [Hl|Hl].
    + split.
      * destruct (truthy e); [discriminate|].
        destruct (strptime_ymd s) as [d|]; [|discriminate].
        destruct (next_day d); discriminate.
      * intros [H|[e' H]]; [discriminate|]. injection H as -> _. simpl in Hl. discriminate Hl.
    + destruct (String.eqb_spec s "") as [->|Hs].
      * split; [intros _; right; exists e; reflexivity|reflexivity].
      * split; [discriminate|].
        intros [H|[e' H]]; [discriminate|]. injection H as -> _. contradiction.
  - split; [intros _; left; reflexivity|reflexivity].
Qed.





(** ** Round trips through the calendar *)

(** The start of a translated Record comes back unchanged through
    [gcal_event_to_notion_date], for all-day and timed Records. *)
Theorem notion_event_start_round_trip p s e b st en :
  date_of p = Some (s, e) -> notion_to_calendar_event p = Ok (Some b) ->
  gcal_event_to_notion_date b = Ok (st, en) -> st = Some s.
Proof.
  intros Hd Hb.
  destruct (ntc_fields p s e b Hd Hb) as (_ & _ & _ & en' & [(_ & Hs & _)|(_ & _ & Hs & _)]);
    unfold gcal_event_to_notion_date; rewrite Hs.
  - destruct (truthy (end_date_of (gend b))).
    + destruct (strptime_ymd _) as [d|]; [|discriminate].
      destruct (prev_day d); [|discriminate].
      intros H; injection H as <- _; reflexivity.
    + intros H; injection H as <- _; reflexivity.
  - intros H; injection H as <- _; reflexivity.
Qed.

Lemma notion_event_start_round_trip_witness :
  (date_of r1 = Some ("2024-03-01", None) /\ notion_to_calendar_event r1 = Ok (Some r1_event)
   /\ gcal_event_to_notion_date r1_event = Ok (Some "2024-03-01", None))
  /\ Some "2024-03-01" = Some "2024-03-01".
Proof.
  assert (Hd : date_of r1 = Some ("2024-03-01", None)) by reflexivity.
  assert (Hb : notion_to_calendar_event r1 = Ok (Some r1_event)) by (vm_compute; reflexivity).
  assert (Hg : gcal_event_to_notion_date r1_event = Ok (Some "2024-03-01", None))
    by (vm_compute; reflexivity).
  split; [exact (conj Hd (conj Hb Hg))|].
  exact (notion_event_start_round_trip r1 "2024-03-01" None r1_event _ _ Hd Hb Hg).
Defined.



(** ** [notion_map] *)

(** [notion_map.get(n)] is [None] exactly when no fetched Record has
    the id [n]. *)
Theorem notion_map_get_none_iff items n :
  notion_map_get items n = None <-> ~ In n (map pid items).
Proof.
  split; [apply notion_map_get_none|].
  intros Hn. destruct (notion_map_get items n) as [p|] eqn:Hg; [|reflexivity].
  destruct (notion_map_get_some _ _ _ Hg) as [Hin <-].
  exfalso. apply Hn, in_map, Hin.
Qed.



(** ** [create_notion_page] and [update_notion_page] *)

Lemma title_of_written n u t s e ps :
  t <> "" -> extract_title_from_notion (mkPage n u (write_title_date t s e ps)) = t.
Proof.
  intros Ht. unfold extract_title_from_notion. cbn [props].
  rewrite write_title_date_title. simpl.
  destruct (String.eqb_spec t ""); [contradiction|reflexivity].
Qed.

Lemma date_of_written n u t s e ps :
  date_of (mkPage n u (write_title_date t s e ps)) = Some (date_property s e).
Proof. unfold date_of. cbn [props]. rewrite write_title_date_date. reflexivity. Qed.

(** When Notion accepts the request, [create_notion_page] appends one
    Record with a fresh id, returns that id, and the Record reads back
    with the given title and date; the calendar is untouched. *)
Theorem create_notion_page_read_back t s e w :
  notion_fails w NCreate = false -> t <> "" ->
  Forall (fun p => (pid p < next_pid w)%nat) (pages w) ->
  let '(r, w') := create_notion_page t s e w in
  exists p, r = Ok (Some (pid p)) /\ pages w' = pages w ++ [p] /\ events w' = events w
    /\ ~ In (pid p) (map pid (pages w))
    /\ extract_title_from_notion p = t /\ date_of p = Some (date_property s e).
Proof.
  intros Hf Ht Hlt. unfold create_notion_page. rewrite Hf.
  exists (mkPage (next_pid w) (page_url (next_pid w)) (write_title_date t s e [])).
  unfold set_pages. cbn [pages events pid].
  split; [reflexivity|split; [reflexivity|split; [reflexivity|split]]].
  - intros Hin. apply in_map_iff in Hin as (q & Hq & Hin).
    rewrite Forall_forall in Hlt. specialize (Hlt q Hin). lia.
  - split; [apply title_of_written, Ht|apply date_of_written].
Qed.

Lemma create_notion_page_read_back_witness :
  (notion_fails two_stores NCreate = false /\ "Lunch" <> ""
   /\ Forall (fun p => (pid p < next_pid two_stores)%nat) (pages two_stores))
  /\ let '(r, w') := create_notion_page "Lunch" "2024-03-05" None two_stores in
     exists p, r = Ok (Some (pid p)) /\ pages w' = pages two_stores ++ [p]
       /\ events w' = events two_stores /\ ~ In (pid p) (map pid (pages two_stores))
       /\ extract_title_from_notion p = "Lunch"
       /\ date_of p = Some (date_property "2024-03-05" None).
Proof.
  assert (Hf : notion_fails two_stores NCreate = false) by reflexivity.
  assert (Ht : "Lunch" <> "") by discriminate.
  assert (Hlt : Forall (fun p => (pid p < next_pid two_stores)%nat) (pages two_stores))
    by (repeat constructor; simpl; lia).
  split; [exact (conj Hf (conj Ht Hlt))|].
  exact (create_notion_page_read_back "Lunch" "2024-03-05" None two_stores Hf Ht Hlt).
Defined.





(** ** What the passes never do *)

Lemma keeps_notion_ret {A} (a : A) : keeps_notion (ret a).
Proof. intro w; split; reflexivity. Qed.

Lemma keeps_notion_lift {A} (r : res A) : keeps_notion (lift r).
Proof. intro w; split; reflexivity. Qed.

Lemma keeps_notion_bind {A B} (c : M A) (f : A -> M B) :
  keeps_notion c -> (forall a, keeps_notion (f a)) -> keeps_notion (bind c f).
Proof.
  intros Hc Hf w; unfold bind.
  specialize (Hc w); destruct (c w) as [[a|m] w']; simpl in *; [|exact Hc].
  destruct (Hf a w') as [H1 H2]. destruct Hc as [H3 H4]. split; congruence.
Qed.

Lemma keeps_notion_list_by_link n : keeps_notion (cal_list_by_link n).
Proof. intro w; unfold cal_list_by_link; destruct (cal_fails w _); split; reflexivity. Qed.

Lemma keeps_notion_insert b : keeps_notion (cal_insert b).
Proof. intro w; unfold cal_insert; destruct (cal_fails w _); split; reflexivity. Qed.

Lemma keeps_notion_update i b : keeps_notion (cal_update i b).
Proof.
  intro w; unfold cal_update; destruct (cal_fails w _); [split; reflexivity|].
  destruct (existsb _ _); split; reflexivity.
Qed.

Lemma keeps_notion_delete i : keeps_notion (cal_delete i).
Proof.
  intro w; unfold cal_delete; destruct (cal_fails w _); [split; reflexivity|].
  destruct (existsb _ _); split; reflexivity.
Qed.

#[local] Hint Resolve keeps_notion_ret keeps_notion_lift keeps_notion_bind
  keeps_notion_list_by_link keeps_notion_insert keeps_notion_update keeps_notion_delete : frame.

Lemma keeps_notion_sync_item item : keeps_notion (sync_item item).
Proof.
  unfold sync_item; apply keeps_notion_bind; auto with frame.
  intros [b|]; auto with frame.
  apply keeps_notion_bind; auto with frame.
  intros [|e r]; auto with frame.
Qed.

Lemma sync_items_notion items c w :
  pages (snd (sync_items items c w)) = pages w
  /\ next_pid (snd (sync_items items c w)) = next_pid w.
Proof.
  revert c w; induction items as [|item rest IH]; intros c w; simpl; [split; reflexivity|].
  pose proof (keeps_notion_sync_item item w) as [Hp Hn].
  destruct (sync_item item w) as [[o|m] w1]; simpl in Hp, Hn.
  - destruct (IH (bump o c) w1); split; congruence.
  - destruct (IH c (add_log w1 (ItemError m))) as [H1 H2]; simpl in H1, H2; split; congruence.
Qed.

Lemma delete_orphans_notion ids synced n w :
  pages (snd (delete_orphans ids synced n w)) = pages w
  /\ next_pid (snd (delete_orphans ids synced n w)) = next_pid w.
Proof.
  revert n w; induction synced as [|g rest IH]; intros n w; simpl; [split; reflexivity|].
  destruct (link (ebody g)) as [nid|]; [|apply IH].
  destruct (link_in ids nid); [apply IH|].
  pose proof (keeps_notion_delete (eid g) w) as [Hp Hn].
  destruct (cal_delete (eid g) w) as [[u|m] w1]; simpl in Hp, Hn.
  - destruct (IH (S n) w1); split; congruence.
  - simpl; split; assumption.
Qed.

Lemma sweep_notion ids w :
  pages (snd (sweep ids w)) = pages w /\ next_pid (snd (sweep ids w)) = next_pid w.
Proof.
  unfold sweep, cal_list_all; destruct (cal_fails w CListAll); [split; reflexivity|].
  apply delete_orphans_notion.
Qed.

Lemma keeps_records_ret {A} (a : A) : keeps_records (ret a).
Proof. intro w; exists []; rewrite app_nil_r; reflexivity. Qed.

Lemma keeps_records_lift {A} (r : res A) : keeps_records (lift r).
Proof. intro w; exists []; rewrite app_nil_r; reflexivity. Qed.

Lemma keeps_records_bind {A B} (c : M A) (f : A -> M B) :
  keeps_records c -> (forall a, keeps_records (f a)) -> keeps_records (bind c f).
Proof.
  intros Hc Hf w; unfold bind.
  destruct (Hc w) as [L1 H1]; destruct (c w) as [[a|m] w']; simpl in *; [|eauto].
  destruct (Hf a w') as [L2 H2]. exists (L1 ++ L2). rewrite H2, H1, app_assoc. reflexivity.
Qed.

Lemma keeps_records_of_notion {A} (c : M A) : keeps_notion c -> keeps_records c.
Proof. intros Hc w; exists []; rewrite app_nil_r, (proj1 (Hc w)); reflexivity. Qed.

Lemma keeps_records_create t s e : keeps_records (create_notion_page t s e).
Proof.
  intro w; unfold create_notion_page; destruct (notion_fails w NCreate).
  - exists []; rewrite app_nil_r; reflexivity.
  - eexists; unfold set_pages; cbn [pages snd]; rewrite map_app; reflexivity.
Qed.

Lemma keeps_records_update_page n t s e : keeps_records (update_notion_page n t s e).
Proof.
  intro w; unfold update_notion_page; destruct (notion_fails w (NUpdate n)).
  - exists []; rewrite app_nil_r; reflexivity.
  - exists []; rewrite app_nil_r. destruct (existsb _ _); [|reflexivity].
    unfold set_pages; cbn [pages snd]. rewrite map_map. apply map_ext.
    intro p; destruct (Nat.eqb (pid p) n); reflexivity.
Qed.

#[local] Hint Resolve keeps_records_ret keeps_records_lift keeps_records_bind
  keeps_records_create keeps_records_update_page : frame.

Lemma keeps_records_sync_event items g : keeps_records (sync_event items g).
Proof.
  unfold sync_event; destruct (link (ebody g)) as [n|].
  - destruct (notion_map_get items n) as [p|].
    + apply keeps_records_bind; auto with frame; intros [s e].
      destruct (truthy s && _); auto with frame.
    + apply keeps_records_bind; auto with frame.
      apply keeps_records_of_notion, keeps_notion_delete.
  - apply keeps_records_bind; auto with frame; intros [s e].
    destruct (truthy s); auto with frame.
    apply keeps_records_bind; auto with frame; intros [k|]; auto with frame.
    apply keeps_records_bind; auto with frame.
    apply keeps_records_of_notion, keeps_notion_update.
Qed.

Lemma sync_events_records items evs c w :
  exists L, map pu (pages (snd (sync_events items evs c w))) = map pu (pages w) ++ L.
Proof.
  revert c w; induction evs as [|g rest IH]; intros c w; simpl;
    [exists []; rewrite app_nil_r; reflexivity|].
  destruct (keeps_records_sync_event items g w) as [L1 H1].
  destruct (sync_event items g w) as [[o|m] w1]; simpl in H1.
  - destruct o;
      lazymatch goal with
      | |- exists L, map pu (pages (snd (sync_events items rest ?c' w1))) = _ =>
          destruct (IH c' w1) as [L2 H2]; exists (L1 ++ L2); rewrite H2, H1, app_assoc;
          reflexivity
      end.
  - exists L1; simpl; exact H1.
Qed.

Lemma sync_n2c_notion items ids w :
  pages (snd (sync_notion_to_calendar items ids w)) = pages w
  /\ next_pid (snd (sync_notion_to_calendar items ids w)) = next_pid w.
Proof.
  unfold sync_notion_to_calendar.
  pose proof (sync_items_notion items (mkC3 0 0 0) w) as [H1 H2].
  destruct (sync_items items (mkC3 0 0 0) w) as [c w1]; simpl in H1, H2.
  pose proof (sweep_notion ids w1) as [H3 H4].
  destruct (sweep ids w1) as [d w2]; simpl in *. split; congruence.
Qed.

(** The forward pass writes nothing to Notion, whatever fails. *)
Theorem sync_notion_to_calendar_keeps_notion items ids w :
  pages (snd (sync_notion_to_calendar items ids w)) = pages w
  /\ next_pid (snd (sync_notion_to_calendar items ids w)) = next_pid w.
Proof. exact (sync_n2c_notion items ids w). Qed.

(** A run never deletes a Notion Record, nor changes its id or url,
    whatever fails: the Records it creates come after the existing
    ones. *)
Theorem main_keeps_records w :
  exists L, map pu (pages (snd (main w))) = map pu (pages w) ++ L.
Proof.
  unfold main.
  assert (Hg : pages (snd (get_notion_items w)) = pages w)
    by (unfold get_notion_items; destruct (notion_fails w NQuery); reflexivity).
  destruct (get_notion_items w) as [[items|m] w1]; simpl in Hg;
    [|simpl; exists []; rewrite app_nil_r, Hg; reflexivity].
  pose proof (sync_n2c_notion items (map pid items) w1) as [H1 _].
  destruct (sync_notion_to_calendar _ _ w1) as [n2c w2]; simpl in H1.
  unfold sync_calendar_to_notion, cal_list_all.
  destruct (cal_fails w2 CListAll); simpl.
  - exists []; rewrite app_nil_r, H1, Hg; reflexivity.
  - destruct (sync_events_records items (firstn 2500 (events w2)) (mkRC 0 0 0) w2) as [L HL].
    destruct (sync_events _ _ _ w2) as [c2n w3]; simpl in *.
    exists L; rewrite HL, H1, Hg; reflexivity.
Qed.

(** *** Calendar events kept by the passes *)

Lemma in_filter_eid l j x :
  In x l -> eid x <> j -> In x (filter (fun e => negb (Nat.eqb (eid e) j)) l).
Proof.
  intros Hx Hne. apply filter_In. split; [exact Hx|].
  destruct (Nat.eqb_spec (eid x) j); [contradiction|reflexivity].
Qed.

Lemma incl_filter_self {A} (f : A -> bool) l : incl (filter f l) l.
Proof. intros x Hx. apply filter_In in Hx. apply Hx. Qed.

Lemma delete_orphans_keeps ids synced n w E0 x :
  NoDup (map eid E0) -> incl synced E0 -> incl (events w) E0 ->
  In x (events w) -> orphan ids x = false ->
  In x (events (snd (delete_orphans ids synced n w)))
  /\ incl (events (snd (delete_orphans ids synced n w))) (events w).
Proof.
  intros Hnd. revert n w. induction synced as [|g rest IH]; intros n w Hs Hw Hx Ho; simpl.
  - split; [exact Hx|apply incl_refl].
  - assert (Hrest : incl rest E0) by (intros y Hy; apply Hs; right; exact Hy).
    destruct (link (ebody g)) as [nid|] eqn:Hl; [|apply IH; assumption].
    destruct (link_in ids nid) eqn:Hin; [apply IH; assumption|].
    unfold cal_delete. destruct (cal_fails w (CDelete (eid g))); simpl;
      [split; [exact Hx|apply incl_refl]|].
    destruct (existsb _ (events w)); simpl; [|split; [exact Hx|apply incl_refl]].
    assert (Hne : eid x <> eid g).
    { intros Heq. assert (x = g) as ->.
      { apply (nodup_map_inj eid E0); auto. apply Hs; left; reflexivity. }
      unfold orphan in Ho. rewrite Hl, Hin in Ho. discriminate. }
    assert (Hx' : In x (filter (fun e => negb (Nat.eqb (eid e) (eid g))) (events w)))
      by (apply in_filter_eid; assumption).
    assert (Hw' : incl (filter (fun e => negb (Nat.eqb (eid e) (eid g))) (events w)) E0)
      by (intros y Hy; apply Hw, (incl_filter_self _ _ _ Hy)).
    destruct (IH (S n) (set_events w (filter (fun e => negb (Nat.eqb (eid e) (eid g)))
                                        (events w)) (next_eid w)) Hrest Hw' Hx' Ho)
      as [H1 H2].
    split; [exact H1|].
    intros y Hy. apply (incl_filter_self _ _ _ (H2 y Hy)).
Qed.

(** The deletion sweep never removes an event that is not an orphan,
    and only removes events. *)
Lemma sweep_keeps ids w x :
  NoDup (map eid (events w)) -> In x (events w) -> orphan ids x = false ->
  In x (events (snd (sweep ids w))) /\ incl (events (snd (sweep ids w))) (events w).
Proof.
  intros Hnd Hx Ho. unfold sweep, cal_list_all.
  destruct (cal_fails w CListAll); simpl; [split; [exact Hx|apply incl_refl]|].
  apply (delete_orphans_keeps ids _ 0 w (events w) x Hnd); auto using incl_refl.
  intros y Hy. apply filter_In in Hy as [Hy _].
  rewrite <- (firstn_skipn 2500 (events w)). apply in_or_app. left. exact Hy.
Qed.

Lemma sync_item_ev_ok it w : ev_ok w -> ev_ok (snd (sync_item it w)).
Proof.
  intros Hok.
  assert (Hin : link_in [pid it] (pid it) = true) by (simpl; rewrite Nat.eqb_refl; reflexivity).
  pose proof (sync_item_events [pid it] it w Hin Hok) as Hs.
  destruct (sync_item it w) as [r w1]. apply Hs.
Qed.

Lemma sync_item_natives it w x :
  ev_ok w -> In x (events w) -> link (ebody x) = None ->
  In x (events (snd (sync_item it w))).
Proof.
  intros [Hnd _] Hx Hl. unfold sync_item, bind, lift, ret.
  destruct (notion_to_calendar_event it) as [[b|]|m]; [|exact Hx|exact Hx].
  unfold cal_list_by_link. destruct (cal_fails w (CListLink (pid it))); [exact Hx|].
  destruct (filter (has_link (pid it)) (events w)) as [|e r] eqn:Hf.
  - unfold cal_insert. destruct (cal_fails w CInsert); [exact Hx|].
    simpl. apply in_or_app; left; exact Hx.
  - assert (He : In e (events w) /\ has_link (pid it) e = true)
      by (apply filter_In; rewrite Hf; left; reflexivity).
    unfold cal_update. destruct (cal_fails w (CUpdate (eid e))); [exact Hx|].
    destruct (existsb _ (events w)); [|exact Hx].
    simpl. apply update_events_keep; [exact Hx|]. intros Heq.
    assert (x = e) as ->
      by (apply (nodup_map_inj eid (events w)); [exact Hnd|exact Hx|apply He|exact Heq]).
    destruct He as [_ Hh]. apply has_link_iff in Hh. congruence.
Qed.

Lemma sync_items_natives items c w x :
  ev_ok w -> In x (events w) -> link (ebody x) = None ->
  In x (events (snd (sync_items items c w))).
Proof.
  revert c w. induction items as [|it rest IH]; intros c w Hok Hx Hl; simpl; [exact Hx|].
  pose proof (sync_item_ev_ok it w Hok) as Hok1.
  pose proof (sync_item_natives it w x Hok Hx Hl) as Hx1.
  destruct (sync_item it w) as [[o|m] w1]; simpl in Hok1, Hx1.
  - apply IH; assumption.
  - apply IH; [exact Hok1|exact Hx1|exact Hl].
Qed.

(** The forward pass, whatever fails, never changes nor deletes an
    event created in the calendar (one without link), and never deletes
    an event linked to one of the fetched Records. *)
Theorem sync_notion_to_calendar_keeps items w x :
  ev_ok w -> In x (events w) -> orphan (map pid items) x = false ->
  (link (ebody x) = None ->
   In x (events (snd (sync_notion_to_calendar items (map pid items) w))))
  /\ In (eid x) (map eid (events (snd (sync_notion_to_calendar items (map pid items) w)))).
Proof.
  intros Hok Hx Ho. unfold sync_notion_to_calendar.
  assert (Hall : forall it, In it items -> link_in (map pid items) (pid it) = true)
    by (intros it Hit; apply link_in_iff, in_map, Hit).
  pose proof (sync_items_events (map pid items) items (mkC3 0 0 0) w Hall Hok) as Hse.
  pose proof (fun Hn => sync_items_natives items (mkC3 0 0 0) w x Hok Hx Hn) as Hnat.
  destruct (sync_items items (mkC3 0 0 0) w) as [c w1]. simpl in Hnat.
  destruct Hse as (Hok1 & _ & Hfo & Heids & _).
  assert (Hy : exists y, In y (events w1) /\ eid y = eid x
                         /\ orphan (map pid items) y = false).
  { destruct (proj1 (in_map_iff eid (events w1) (eid x)) (Heids _ (in_map eid _ _ Hx)))
      as (y & Hey & Hy).
    exists y. split; [exact Hy|split; [exact Hey|]].
    destruct (orphan (map pid items) y) eqn:Hoy; [|reflexivity]. exfalso.
    assert (Hyw : In y (filter (orphan (map pid items)) (events w)))
      by (rewrite <- Hfo; apply filter_In; auto).
    apply filter_In in Hyw as [Hyw _].
    assert (y = x) as -> by (apply (nodup_map_inj eid (events w)); [apply Hok|..]; assumption).
    congruence. }
  destruct Hy as (y & Hy & Hey & Hoy).
  destruct Hok1 as [Hnd1 _].
  pose proof (sweep_keeps (map pid items) w1 y Hnd1 Hy Hoy) as [Hk _].
  assert (Hx1 : link (ebody x) = None -> In x (events (snd (sweep (map pid items) w1))))
    by (intros Hn; apply (sweep_keeps _ w1 x Hnd1 (Hnat Hn) Ho)).
  destruct (sweep (map pid items) w1) as [d w2]. simpl in *.
  split; [exact Hx1|]. rewrite <- Hey. apply in_map, Hk.
Qed.

Lemma sync_notion_to_calendar_keeps_witness :
  (ev_ok two_stores
   /\ In (day_event 100 "Lunch" "2024-03-05" "2024-03-06" None) (events two_stores)
   /\ orphan (map pid (pages two_stores)) (day_event 100 "Lunch" "2024-03-05" "2024-03-06" None)
      = false)
  /\ ((link (ebody (day_event 100 "Lunch" "2024-03-05" "2024-03-06" None)) = None ->
       In (day_event 100 "Lunch" "2024-03-05" "2024-03-06" None)
         (events (snd (sync_notion_to_calendar (pages two_stores)
                         (map pid (pages two_stores)) two_stores))))
      /\ In (eid (day_event 100 "Lunch" "2024-03-05" "2024-03-06" None))
           (map eid (events (snd (sync_notion_to_calendar (pages two_stores)
                                   (map pid (pages two_stores)) two_stores))))).
Proof.
  assert (Hok : ev_ok two_stores).
  { split; simpl.
    - repeat constructor; simpl; lia.
    - repeat constructor; simpl; lia. }
  assert (Hx : In (day_event 100 "Lunch" "2024-03-05" "2024-03-06" None) (events two_stores))
    by (simpl; auto).
  assert (Ho : orphan (map pid (pages two_stores))
                 (day_event 100 "Lunch" "2024-03-05" "2024-03-06" None) = false)
    by reflexivity.
  split; [exact (conj Hok (conj Hx Ho))|].
  exact (sync_notion_to_calendar_keeps (pages two_stores) two_stores _ Hok Hx Ho).
Defined.

Lemma sync_event_eids items g w :
  map eid (events (snd (sync_event items g w))) = map eid (events w)
  \/ (exists n, link (ebody g) = Some n /\ notion_map_get items n = None
      /\ events (snd (sync_event items g w))
         = filter (fun e => negb (Nat.eqb (eid e) (eid g))) (events w)).
Proof.
  unfold sync_event, bind, lift, ret.
  destruct (link (ebody g)) as [n|] eqn:Hl.
  - destruct (notion_map_get items n) as [p|] eqn:Hg.
    + left. destruct (gcal_event_to_notion_date (ebody g)) as [[s e]|m]; [|reflexivity].
      destruct (truthy s && _); [|reflexivity].
      unfold update_notion_page. destruct (notion_fails w _); [reflexivity|].
      destruct (existsb _ _); reflexivity.
    + unfold cal_delete. destruct (cal_fails w _); [left; reflexivity|].
      destruct (existsb _ _); [right; exists n; auto|left; reflexivity].
  - left. destruct (gcal_event_to_notion_date (ebody g)) as [[s e]|m]; [|reflexivity].
    destruct (truthy s); [|reflexivity].
    unfold create_notion_page. destruct (notion_fails w NCreate); [reflexivity|].
    unfold cal_update. destruct (cal_fails _ _); [reflexivity|].
    destruct (existsb _ _); [|reflexivity].
    simpl. apply update_events_eids.
Qed.

Lemma sync_events_eids items L c w :
  incl (map eid (events (snd (sync_events items L c w)))) (map eid (events w))
  /\ forall i, In i (map eid (events w)) ->
       (forall g n, In g L -> eid g = i -> link (ebody g) = Some n -> In n (map pid items)) ->
       In i (map eid (events (snd (sync_events items L c w)))).
Proof.
  revert c w. induction L as [|g rest IH]; intros c w; simpl.
  - split; [apply incl_refl|auto].
  - assert (H1 : incl (map eid (events (snd (sync_event items g w)))) (map eid (events w))).
    { destruct (sync_event_eids items g w) as [Heq|(n & Hl & Hn & Hev)].
      - rewrite Heq. apply incl_refl.
      - rewrite Hev. intros i Hi. apply in_map_iff in Hi as (y & <- & Hy).
        apply in_map, (incl_filter_self _ _ _ Hy). }
    assert (H2 : forall i, In i (map eid (events w)) ->
                 (forall n, eid g = i -> link (ebody g) = Some n -> In n (map pid items)) ->
                 In i (map eid (events (snd (sync_event items g w))))).
    { intros i Hi Hp.
      destruct (sync_event_eids items g w) as [Heq|(n & Hl & Hn & Hev)].
      - rewrite Heq. exact Hi.
      - rewrite Hev. apply in_map_iff in Hi as (y & <- & Hy). apply in_map.
        apply in_filter_eid; [exact Hy|]. intros Heq.
        apply (notion_map_get_none items n Hn). exact (Hp n (eq_sym Heq) Hl). }
    destruct (sync_event items g w) as [[o|m] w1]; simpl in H1, H2.
    + destruct o;
        lazymatch goal with
        | |- context [sync_events items rest ?c' w1] =>
            destruct (IH c' w1) as [IH1 IH2]; split;
              [intros i Hi; apply H1, IH1, Hi
              |intros i Hi Hp; apply IH2;
                 [apply H2; [exact Hi|intros n Heq Hl; exact (Hp g n (or_introl eq_refl) Heq Hl)]
                 |intros g' n Hg'; apply Hp; right; exact Hg']]
        end.
    + simpl. split; [exact H1|].
      intros i Hi Hp. apply H2; [exact Hi|].
      intros n Heq Hl. exact (Hp g n (or_introl eq_refl) Heq Hl).
Qed.

(** The reverse pass creates no calendar event, whatever fails; it
    deletes only events linked to an id that no fetched Record has:
    an event without link, or linked to a fetched Record, keeps its id
    (its body may be rewritten). *)
Theorem sync_calendar_to_notion_events items w :
  NoDup (map eid (events w)) ->
  incl (map eid (events (snd (sync_calendar_to_notion items w)))) (map eid (events w))
  /\ forall x, In x (events w) ->
       (link (ebody x) = None \/ exists n, link (ebody x) = Some n /\ In n (map pid items)) ->
       In (eid x) (map eid (events (snd (sync_calendar_to_notion items w)))).
Proof.
  intros Hnd. unfold sync_calendar_to_notion, cal_list_all.
  destruct (cal_fails w CListAll); simpl.
  - split; [apply incl_refl|intros x Hx _; apply in_map, Hx].
  - destruct (sync_events_eids items (firstn 2500 (events w)) (mkRC 0 0 0) w) as [H1 H2].
    split; [exact H1|]. intros x Hx Hp. apply H2; [apply in_map, Hx|].
    intros g n Hg Heq Hl.
    assert (Hgw : In g (events w))
      by (rewrite <- (firstn_skipn 2500 (events w)); apply in_or_app; left; exact Hg).
    assert (g = x) as -> by (apply (nodup_map_inj eid (events w)); assumption).
    destruct Hp as [Hn|(n' & Hl' & Hin)]; [congruence|].
    rewrite Hl in Hl'. injection Hl' as <-. exact Hin.
Qed.

Lemma sync_calendar_to_notion_events_witness :
  NoDup (map eid (events two_stores))
  /\ (incl (map eid (events (snd (sync_calendar_to_notion (pages two_stores) two_stores))))
        (map eid (events two_stores))
      /\ forall x, In x (events two_stores) ->
           (link (ebody x) = None
            \/ exists n, link (ebody x) = Some n /\ In n (map pid (pages two_stores))) ->
           In (eid x) (map eid (events (snd (sync_calendar_to_notion (pages two_stores)
                                              two_stores))))).
Proof.
  assert (Hnd : NoDup (map eid (events two_stores))) by (simpl; repeat constructor; simpl; lia).
  exact (conj Hnd (sync_calendar_to_notion_events (pages two_stores) two_stores Hnd)).
Defined.

(** ** What a forward pass establishes *)

Lemma sync_items_quiet_log items c w :
  (forall c, cal_fails w c = false) -> ev_ok w -> unique_links (events w) ->
  (forall it, In it items -> exists o, notion_to_calendar_event it = Ok o) ->
  log (snd (sync_items items c w)) = log w.
Proof.
  revert c w. induction items as [|it rest IH]; intros c w Hcf Hok Hu Hall; simpl;
    [reflexivity|].
  destruct (Hall it (or_introl eq_refl)) as [o Ho].
  pose proof (sync_item_step it w o Hcf Hok Hu Ho) as Hs.
  destruct (sync_item it w) as [r w1].
  destruct Hs as (_ & _ & Hcf1 & _ & Hlog1 & Hok1 & Hu1 & _ & Hr & _).
  subst r. cbv beta iota.
  rewrite IH; [exact Hlog1|intros c'; rewrite Hcf1; apply Hcf|exact Hok1|exact Hu1|].
  intros it' Hit'. apply Hall. right. exact Hit'.
Qed.

Lemma unique_links_incl l l' : unique_links l -> incl l' l -> unique_links l'.
Proof. intros Hu Hi x y n Hx Hy. apply Hu; auto. Qed.

(** When no calendar call fails and every Record translates, after the
    forward pass every dated Record of the fetch has exactly one event
    linked to it, and that event carries the Record's translation; this
    needs distinct Record ids, distinct event ids and at most one event
    per link beforehand. *)
Theorem sync_notion_to_calendar_post items w :
  (forall c, cal_fails w c = false) -> ev_ok w -> unique_links (events w) ->
  NoDup (map pid items) ->
  (forall it, In it items -> exists o, notion_to_calendar_event it = Ok o) ->
  forall it b, In it items -> notion_to_calendar_event it = Ok (Some b) ->
  exists x, In x (events (snd (sync_notion_to_calendar items (map pid items) w)))
    /\ ebody x = with_link b (pid it)
    /\ forall y, In y (events (snd (sync_notion_to_calendar items (map pid items) w))) ->
         link (ebody y) = Some (pid it) -> y = x.
Proof.
  intros Hcf Hok Hu Hnd Hall it b Hit Hb.
  assert (Hhe : has_event it = true) by (unfold has_event; rewrite Hb; reflexivity).
  pose proof (sync_items_quiet_log items (mkC3 0 0 0) w Hcf Hok Hu Hall) as Hlog.
  pose proof (sync_items_run items (mkC3 0 0 0) w Hcf Hok Hu Hnd Hlog) as Hrun.
  unfold sync_notion_to_calendar.
  destruct (sync_items items (mkC3 0 0 0) w) as [c w1].
  destruct Hrun as (_ & _ & _ & _ & _ & Hok1 & Hu1 & _ & _ & _ & Hcls & Hex & _).
  destruct (Hex it Hit Hhe) as (x & Hx & Hlx).
  assert (Hbx : ebody x = with_link b (pid it)).
  { destruct (Hcls x Hx) as [[_ Hno]|(it' & b' & Hit' & Hb' & Hbx)].
    - exfalso. exact (Hno it Hit Hhe Hlx).
    - rewrite Hbx in Hlx. cbn [with_link link] in Hlx. injection Hlx as Hpid.
      assert (it' = it) as -> by (apply (nodup_map_inj pid items); assumption).
      rewrite Hb in Hb'. injection Hb' as <-. exact Hbx. }
  assert (Ho : orphan (map pid items) x = false).
  { unfold orphan. rewrite Hlx. apply negb_false_iff, link_in_iff, in_map, Hit. }
  pose proof (sweep_keeps (map pid items) w1 x (proj1 Hok1) Hx Ho) as [Hkx Hincl].
  destruct (sweep (map pid items) w1) as [d w2]. simpl in *.
  exists x. split; [exact Hkx|split; [exact Hbx|]].
  intros y Hy Hly. apply (Hu1 y x (pid it)); auto.
Qed.

Lemma sync_notion_to_calendar_post_witness :
  ((forall c, cal_fails two_stores c = false) /\ ev_ok two_stores
   /\ unique_links (events two_stores) /\ NoDup (map pid (pages two_stores))
   /\ (forall it, In it (pages two_stores) -> exists o, notion_to_calendar_event it = Ok o)
   /\ In r1 (pages two_stores) /\ notion_to_calendar_event r1 = Ok (Some r1_event))
  /\ exists x, In x (events (snd (sync_notion_to_calendar (pages two_stores)
                                   (map pid (pages two_stores)) two_stores)))
       /\ ebody x = with_link r1_event (pid r1)
       /\ forall y, In y (events (snd (sync_notion_to_calendar (pages two_stores)
                                        (map pid (pages two_stores)) two_stores))) ->
            link (ebody y) = Some (pid r1) -> y = x.
Proof.
  assert (Hcf : forall c, cal_fails two_stores c = false) by (intro c; reflexivity).
  assert (Hok : ev_ok two_stores).
  { split; simpl.
    - repeat constructor; simpl; lia.
    - repeat constructor; simpl; lia. }
  assert (Hu : unique_links (events two_stores)).
  { intros x y n Hx Hy; simpl in Hx, Hy.
    destruct Hx as [<-|[<-|[]]], Hy as [<-|[<-|[]]]; simpl; intros; congruence. }
  assert (Hnd : NoDup (map pid (pages two_stores))) by (simpl; repeat constructor; simpl; lia).
  assert (Hall : forall it, In it (pages two_stores) ->
                 exists o, notion_to_calendar_event it = Ok o).
  { intros it Hit. simpl in Hit. destruct Hit as [<-|[<-|[]]].
    - exists (Some r1_event). vm_compute. reflexivity.
    - exists None. vm_compute. reflexivity. }
  assert (Hr1 : In r1 (pages two_stores)) by (simpl; auto).
  assert (Hb : notion_to_calendar_event r1 = Ok (Some r1_event)) by (vm_compute; reflexivity).
  split; [exact (conj Hcf (conj Hok (conj Hu (conj Hnd (conj Hall (conj Hr1 Hb))))))|].
  exact (sync_notion_to_calendar_post (pages two_stores) two_stores Hcf Hok Hu Hnd Hall
           r1 r1_event Hr1 Hb).
Defined.

(** ** Records created by the reverse pass *)




(** ** The entry point *)

